(** * GenericTestHandler: the generic test runner of the EPI judge

    A shallow embedding of
    [epi_judge_cpp/test_framework/generic_test_handler.h] and of the
    collaborators it calls, followed by the properties of the handler.

    The handler is a class template over [Function] and [Comparator].
    What the C++ compiler resolves at instantiation time (the traits of
    the function, the expected-value type, the tag that selects the void
    or the value overload, the static assertion) is computed here from
    type descriptors; what runs per row is a computation in a small
    monad of traces, exceptions and undefined behaviour. *)

From Stdlib Require Import ZArith NArith String Ascii.
From stdpp Require Import base decidable option list strings.

(** ** Serialization traits

    [SerializationTraits<T>] is declared in
    [test_utils_serialization_traits.h]; the handler only uses its
    [serialization_type], [Name()] and [Parse()] members, and the
    equality behind [DefaultComparator]. The codecs are taken as given:
    [ty] describes the C++ types that can occur in a signature, [value]
    is what their parsers produce. *)
Class SerializationTraits (ty value : Type) := {
  void : ty;
  serialization_type : ty -> ty;
  Name : ty -> string;
  Parse : ty -> string -> option value;
  Equal : value -> value -> bool
}.

(** ** Exceptions

    The header comment distinguishes the runtime errors of the harness,
    [TestFailureException] and every other exception of the tested
    method. *)
Inductive runtime_error :=
| SignatureMismatch
| DeserializationError.

Inductive exception :=
| RuntimeException (what : runtime_error)
| TestFailureException
| UnknownException (what : string).

Section Harness.

Context {ty value : Type} `{!EqDecision ty} {ST : SerializationTraits ty value}.

(** ** The world: what has happened so far, and how long it took *)

Inductive event :=
| EvParse (t : ty) (s : string)
| EvInvoke (args : list value)
| EvCompare (e a : value).

(** How long each step of the collaborators runs on the steady clock. *)
Variable cost : event -> N.

Definition world := list event.

(** The reading of the steady clock after the trace [w]. *)
Definition now (w : world) : Z :=
  foldr (fun ev t => Z.of_N (cost ev) + t)%Z 0%Z w.

Definition is_parse (ev : event) : bool :=
  match ev with EvParse _ _ => true | _ => false end.

Definition is_invoke (ev : event) : bool :=
  match ev with EvInvoke _ => true | _ => false end.

(** ** The monad of the harness

    A computation runs from a world and returns, throws, or has no
    defined result (undefined behaviour of the C++ program). *)
Inductive outcome (A : Type) :=
| Returns (a : A) (w : world)
| Throws (e : exception) (w : world)
| Undefined.
Arguments Returns {A} a w.
Arguments Throws {A} e w.
Arguments Undefined {A}.

Definition M (A : Type) := world -> outcome A.

Definition ret {A} (a : A) : M A := fun w => Returns a w.
Definition throw {A} (e : exception) : M A := fun w => Throws e w.
Definition undefined {A} : M A := fun _ => Undefined.
Definition emit (ev : event) : M unit := fun w => Returns tt (w ++ [ev]).

Definition bind {A B} (m : M A) (k : A -> M B) : M B :=
  fun w =>
    match m w with
    | Returns a w' => k a w'
    | Throws e w' => Throws e w'
    | Undefined => Undefined
    end.

Notation "x <~ m ;; k" := (bind m (fun x => k))
  (at level 100, m at next level, right associativity).
Notation "m ;;; k" := (bind m (fun _ => k))
  (at level 100, right associativity).

(** [SerializationTraits<T>::Parse(s)]: pure, throws on malformed input. *)
Definition SerializationTraits_Parse (t : ty) (s : string) : M value :=
  emit (EvParse t s) ;;;
  match Parse t s with
  | Some v => ret v
  | None => throw (RuntimeException DeserializationError)
  end.

(** ** [std::vector<std::string>] and its iterators

    A const iterator is a position in a vector; positions range over
    [0 .. size], and stepping outside of that range is undefined. *)
Record const_iterator := { base : list string; pos : nat }.

Definition cbegin (v : list string) : const_iterator :=
  {| base := v; pos := 0 |}.
Definition cend (v : list string) : const_iterator :=
  {| base := v; pos := length v |}.

(** [it - n] *)
Definition iter_minus (it : const_iterator) (n : nat) : option const_iterator :=
  if decide (n <= pos it)
  then Some {| base := base it; pos := pos it - n |}
  else None.

(** [std::distance(first, last)] *)
Definition distance (first last : const_iterator) : Z :=
  (Z.of_nat (pos last) - Z.of_nat (pos first))%Z.

(** [*(it + i)] *)
Definition deref (it : const_iterator) (i : nat) : option string :=
  base it !! (pos it + i).

(** [v.back()] *)
Definition back (v : list string) : option string := last v.

(** ** Type-level data of an instantiation *)

(** How a call of the tested function ends. *)
Inductive completion :=
| ReturnVoid
| Return (r : value)
| Raise (e : exception).

(** [Function], with what [FunctionalTraits<Function>] says about it.
    The tested function is a black box to the handler; [call] records
    how a call on given arguments ends. *)
Record Function := {
  return_t : ty;
  arg_tuple_t : list ty;
  call : list value -> completion
}.

(** [Comparator], with what [BiPredicateTraits<Comparator>] says about it.
    The predicate is taken to answer on every pair of values. *)
Inductive Comparator :=
| DefaultComparator
| BiPredicate (arg1 arg2 : ty) (pred : value -> value -> bool).

Definition has_default_comparator (C : Comparator) : bool :=
  match C with DefaultComparator => true | BiPredicate _ _ _ => false end.

(** [BiPredicateTraits<Comparator>::arg1_t]; the default comparator has
    no declared first argument, and the conditional below never selects
    this member for it. *)
Definition arg1_t (C : Comparator) : ty :=
  match C with DefaultComparator => void | BiPredicate a _ _ => a end.

Definition expected_value_t (F : Function) (C : Comparator) : ty :=
  serialization_type
    (if has_default_comparator C then return_t F else arg1_t C).

Definition is_void (t : ty) : bool := bool_decide (t = void).

(** The static assertion of the class body. *)
Definition static_assert_holds (F : Function) (C : Comparator) : bool :=
  bool_decide (is_void (expected_value_t F C) = is_void (return_t F)).

Inductive expected_tag_t := ExpectedIsVoidTag | ExpectedIsValueTag.

Definition expected_tag (F : Function) (C : Comparator) : expected_tag_t :=
  if is_void (expected_value_t F C) then ExpectedIsVoidTag else ExpectedIsValueTag.

(** A handler is an instantiation that compiles, with its two members. *)
Record GenericTestHandler := {
  func_ : Function;
  comp_ : Comparator;
  static_assert_ok : static_assert_holds func_ comp_ = true
}.

(** Instantiating the template: rejected when the assertion fails. *)
Definition instantiate (F : Function) (C : Comparator) : option GenericTestHandler :=
  match decide (static_assert_holds F C = true) with
  | left ok => Some {| func_ := F; comp_ := C; static_assert_ok := ok |}
  | right _ => None
  end.

Definition ExpectedIsVoid (h : GenericTestHandler) : bool :=
  match expected_tag (func_ h) (comp_ h) with
  | ExpectedIsVoidTag => true
  | ExpectedIsValueTag => false
  end.

Definition ArgumentCount (h : GenericTestHandler) : nat :=
  length (arg_tuple_t (func_ h)).

(** ** Signature matching *)

(** Modelled from the spec: [MatchFunctionSignature] of [test_utils.h]
    lives outside of the handler's file. It fails with a signature
    mismatch when the header length is not the parameter count plus one
    for a non-void expected type, or when a positional tag is not the
    name of the type at that position. *)
Fixpoint MatchFunctionSignatureImpl (ts : list ty) (first : const_iterator)
    (I : nat) : M unit :=
  match ts with
  | [] => ret tt
  | t :: ts' =>
      match deref first I with
      | None => undefined
      | Some tag =>
          if decide (tag = Name t)
          then MatchFunctionSignatureImpl ts' first (S I)
          else throw (RuntimeException SignatureMismatch)
      end
  end.

Definition MatchFunctionSignature (ExpectedT : ty) (ArgTuple : list ty)
    (first last : const_iterator) : M unit :=
  let has_return := if is_void ExpectedT then 0 else 1 in
  if decide (distance first last = Z.of_nat (length ArgTuple + has_return))
  then MatchFunctionSignatureImpl
         (ArgTuple ++ if is_void ExpectedT then [] else [ExpectedT]) first 0
  else throw (RuntimeException SignatureMismatch).

Definition ParseSignature (h : GenericTestHandler) (arg_types : list string) : M unit :=
  MatchFunctionSignature (expected_value_t (func_ h) (comp_ h))
    (arg_tuple_t (func_ h)) (cbegin arg_types) (cend arg_types).

(** ** Argument decoding *)

(** Modelled from the spec: [ParseSerializedArgs] of [test_utils.h]
    lives outside of the handler's file. It fails with a deserialization
    error when the number of fields is not the number of parameters;
    otherwise it converts the field at each position with the parser of
    the parameter type at that position, from left to right. *)
Fixpoint ParseSerializedArgsImpl (ts : list ty) (first : const_iterator)
    (I : nat) : M (list value) :=
  match ts with
  | [] => ret []
  | t :: ts' =>
      match deref first I with
      | None => undefined
      | Some s =>
          x <~ SerializationTraits_Parse t s ;;
          xs <~ ParseSerializedArgsImpl ts' first (S I) ;;
          ret (x :: xs)
      end
  end.

Definition ParseSerializedArgs (ArgTuple : list ty)
    (first last : const_iterator) : M (list value) :=
  if decide (distance first last = Z.of_nat (length ArgTuple))
  then ParseSerializedArgsImpl ArgTuple first 0
  else throw (RuntimeException DeserializationError).

(** ** Timing and invocation *)

(** Modelled from the spec: [TestTimer] is declared outside of the
    handler's file. It records two readings of a monotonic clock; the
    elapsed time is their difference. *)
Record TestTimer := { start_ : Z; stop_ : Z }.

Definition TestTimer_new : TestTimer := {| start_ := 0; stop_ := 0 |}.

Definition Start (t : TestTimer) : M TestTimer :=
  fun w => Returns {| start_ := now w; stop_ := stop_ t |} w.

Definition Stop (t : TestTimer) : M TestTimer :=
  fun w => Returns {| start_ := start_ t; stop_ := now w |} w.

Definition elapsed (t : TestTimer) : Z := (stop_ t - start_ t)%Z.

(** Modelled from the spec: [FunctionalTraits<Function>::InvokeWithTimer]
    of [test_utils_meta.h] lives outside of the handler's file. It starts
    the timer immediately before the call and stops it immediately
    after, whatever the outcome; an exception of the function is not
    handled here and leaves through the caller. A void function yields
    no value. *)
Definition InvokeWithTimer (f : Function) (timer : TestTimer)
    (args : list value) : M (TestTimer * option value) :=
  timer <~ Start timer ;;
  emit (EvInvoke args) ;;;
  timer <~ Stop timer ;;
  match call f args with
  | ReturnVoid => ret (timer, None)
  | Return r => ret (timer, Some r)
  | Raise e => throw e
  end.

(** [std::make_index_sequence<N>] *)
Definition make_index_sequence (n : nat) : list nat := seq 0 n.

(** [std::get<I>(args)...] *)
Definition get_each (args : list value) (I : list nat) : list value :=
  omap (fun i => args !! i) I.

Definition Invoke (h : GenericTestHandler) (timer : TestTimer)
    (args : list value) (I : list nat) : M (TestTimer * option value) :=
  InvokeWithTimer (func_ h) timer (get_each args I).

(** ** Evaluation *)

(** Modelled from the spec: [TestOutput] of [test_output.h] is declared
    outside of the handler's file. It carries the verdict, the timer, and the
    optional expected and actual values; the two-argument form leaves
    both optionals absent. *)
Record TestOutput := {
  passed : bool;
  timer : TestTimer;
  expected : option value;
  result : option value
}.

(** What the comparator member answers on two values; the default
    comparator is the equality of the codec. *)
Definition verdict (C : Comparator) (e r : value) : bool :=
  match C with
  | DefaultComparator => Equal e r
  | BiPredicate _ _ pred => pred e r
  end.

(** [comp_(expected, result)] *)
Definition apply_comp (C : Comparator) (e r : value) : M bool :=
  emit (EvCompare e r) ;;;
  ret (verdict C e r).

(** The overload for a non-void return type. A function declared to
    return a value that ends without one has no defined result. *)
Definition ParseExpectedAndInvokeImpl_Value (h : GenericTestHandler)
    (serialized_expected : string) (args : list value) : M TestOutput :=
  expected <~ SerializationTraits_Parse
                (expected_value_t (func_ h) (comp_ h)) serialized_expected ;;
  let timer := TestTimer_new in
  invoked <~ Invoke h timer args
               (make_index_sequence (length (arg_tuple_t (func_ h)))) ;;
  let '(timer, result) := invoked in
  match result with
  | None => undefined
  | Some result =>
      same <~ apply_comp (comp_ h) expected result ;;
      ret {| passed := same; timer := timer;
             expected := Some expected; result := Some result |}
  end.

(** The overload for a void return type. *)
Definition ParseExpectedAndInvokeImpl_Void (h : GenericTestHandler)
    (serialized_expected : string) (args : list value) : M TestOutput :=
  let timer := TestTimer_new in
  invoked <~ Invoke h timer args
               (make_index_sequence (length (arg_tuple_t (func_ h)))) ;;
  let '(timer, _) := invoked in
  ret {| passed := true; timer := timer; expected := None; result := None |}.

Definition ParseExpectedAndInvokeImpl (h : GenericTestHandler)
    (serialized_expected : string) (args : list value)
    (tag : expected_tag_t) : M TestOutput :=
  match tag with
  | ExpectedIsValueTag => ParseExpectedAndInvokeImpl_Value h serialized_expected args
  | ExpectedIsVoidTag => ParseExpectedAndInvokeImpl_Void h serialized_expected args
  end.

Definition ParseExpectedAndInvoke (h : GenericTestHandler)
    (serialized_expected : string) (args : list value) : M TestOutput :=
  ParseExpectedAndInvokeImpl h serialized_expected args
    (expected_tag (func_ h) (comp_ h)).

(** ** One row *)

Definition RunTest (h : GenericTestHandler) (test_args : list string) : M TestOutput :=
  match iter_minus (cend test_args) (if ExpectedIsVoid h then 0 else 1) with
  | None => undefined
  | Some last =>
      args <~ ParseSerializedArgs (arg_tuple_t (func_ h)) (cbegin test_args) last ;;
      match back test_args with
      | None => undefined
      | Some serialized_expected =>
          ParseExpectedAndInvoke h serialized_expected args
      end
  end.

(** ** The rows of a suite *)

Inductive row_result :=
| Judged (out : TestOutput)
| FailedByException.

(** Modelled from the spec: the loop over the rows belongs to the test
    runner, outside of the handler's file. As the header
    comment of the handler says, a [TestFailureException] of the tested
    method marks the current test as failed and the execution goes on;
    any other exception terminates the run. *)
Definition run_row (h : GenericTestHandler) (row : list string) : M row_result :=
  fun w =>
    match RunTest h row w with
    | Returns out w' => Returns (Judged out) w'
    | Throws TestFailureException w' => Returns FailedByException w'
    | Throws e w' => Throws e w'
    | Undefined => Undefined
    end.

Fixpoint run_rows (h : GenericTestHandler) (rows : list (list string))
    : M (list row_result) :=
  match rows with
  | [] => ret []
  | row :: rest =>
      r <~ run_row h row ;;
      rs <~ run_rows h rest ;;
      ret (r :: rs)
  end.

Definition row_passed (r : row_result) : bool :=
  match r with Judged out => passed out | FailedByException => false end.

End Harness.

Arguments Returns {ty value A} a w.
Arguments Throws {ty value A} e w.
Arguments Undefined {ty value A}.

Declare Scope harness_scope.
Delimit Scope harness_scope with harness.
Notation "x <~ m ;; k" := (bind m (fun x => k))
  (at level 100, m at next level, right associativity) : harness_scope.
Notation "m ;;; k" := (bind m (fun _ => k))
  (at level 100, right associativity) : harness_scope.

(** ** How a row decodes, as a plain function

    The fields of a row against the parameter types, position by
    position, and the tags a header has to carry. *)
Section Decoding.

Context {ty value : Type} `{!EqDecision ty} {ST : SerializationTraits ty value}.

Fixpoint decode_fields (ts : list ty) (fields : list string) : option (list value) :=
  match ts, fields with
  | [], [] => Some []
  | t :: ts', s :: fields' =>
      match Parse t s, decode_fields ts' fields' with
      | Some x, Some xs => Some (x :: xs)
      | _, _ => None
      end
  | _, _ => None
  end.

Definition parse_events (ts : list ty) (fields : list string) : list (@event ty value) :=
  zip_with EvParse ts fields.

(** The tags of the types [ParseSignature] passes to the matcher. *)
Definition signature_tags (h : @GenericTestHandler ty value _ ST) : list string :=
  map Name (arg_tuple_t (func_ h)) ++
  (if is_void (expected_value_t (func_ h) (comp_ h)) then []
   else [Name (expected_value_t (func_ h) (comp_ h))]).

(** The tags of the declared parameter types and return type of the
    tested function. *)
Definition declared_tags (F : @Function ty value) : list string :=
  map Name (arg_tuple_t F) ++
  (if is_void (return_t F) then [] else [Name (return_t F)]).

(** The fields [fs] are what the iterator [first] reaches from offset [I]. *)
Definition reaches (first : const_iterator) (I : nat) (fs : list string) : Prop :=
  forall j s, fs !! j = Some s -> deref first (I + j) = Some s.

End Decoding.

(** ** What a trace shows

    How often the tested function and the comparator ran, read off the
    events of a trace, and the typing discipline of a tested function:
    one whose return type is not void ends with a value or an
    exception. *)
Section Observations.

Context {ty value : Type} `{!EqDecision ty} {ST : SerializationTraits ty value}.

Definition is_compare (ev : @event ty value) : bool :=
  match ev with EvCompare _ _ => true | _ => false end.

Definition invocations (w : list (@event ty value)) : nat :=
  length (List.filter is_invoke w).

Definition comparisons (w : list (@event ty value)) : nat :=
  length (List.filter is_compare w).

Definition returns_a_value (h : @GenericTestHandler ty value _ ST) : Prop :=
  ExpectedIsVoid h = false ->
  forall args, call (func_ h) args <> ReturnVoid.

End Observations.


(** ** A small instantiation

    Integers and strings with a decimal codec, and a few functions under
    test; used for the examples below. *)
Module Sample.

Inductive cpp_type := T_void | T_int | T_string.

Inductive cpp_value := VInt (z : Z) | VString (s : string).

#[global] Instance cpp_type_eq_dec : EqDecision cpp_type.
Proof. solve_decision. Defined.

#[global] Instance cpp_value_eq_dec : EqDecision cpp_value.
Proof. solve_decision. Defined.

Definition digit_of (c : ascii) : option Z :=
  let n := nat_of_ascii c in
  if decide (48 <= n <= 57) then Some (Z.of_nat (n - 48)) else None.

Fixpoint parse_digits (s : string) (acc : Z) : option Z :=
  match s with
  | EmptyString => Some acc
  | String c s' =>
      match digit_of c with
      | Some d => parse_digits s' (10 * acc + d)%Z
      | None => None
      end
  end.

Definition parse_int (s : string) : option Z :=
  match s with
  | EmptyString => None
  | String "-"%char EmptyString => None
  | String "-"%char s' => Z.opp <$> parse_digits s' 0
  | _ => parse_digits s 0
  end.

#[global] Instance sample_traits : SerializationTraits cpp_type cpp_value := {|
  void := T_void;
  serialization_type := fun t => t;
  Name := fun t =>
    match t with
    | T_void => "void"%string
    | T_int => "int"%string
    | T_string => "string"%string
    end;
  Parse := fun t s =>
    match t with
    | T_void => None
    | T_int => VInt <$> parse_int s
    | T_string => Some (VString s)
    end;
  Equal := fun a b => bool_decide (a = b)
|}.

Definition sample_cost (ev : @event cpp_type cpp_value) : N :=
  match ev with
  | EvParse _ _ => 3
  | EvInvoke _ => 7
  | EvCompare _ _ => 2
  end%N.

Definition function := @Function cpp_type cpp_value.
Definition comparator := @Comparator cpp_type cpp_value.
Definition handler := @GenericTestHandler cpp_type cpp_value _ sample_traits.

(** [int sum(int, int)] *)
Definition sum : function := {|
  return_t := T_int;
  arg_tuple_t := [T_int; T_int];
  call := fun args =>
    match args with
    | [VInt a; VInt b] => Return (VInt (a + b))
    | _ => Raise (UnknownException "bad arguments")
    end
|}.

(** [void record(int)] *)
Definition record : function := {|
  return_t := T_void;
  arg_tuple_t := [T_int];
  call := fun _ => ReturnVoid
|}.

(** [void tick()] *)
Definition tick : function := {|
  return_t := T_void;
  arg_tuple_t := [];
  call := fun _ => ReturnVoid
|}.

(** [int checked(int)]: gives up on a negative input, crashes on zero. *)
Definition checked : function := {|
  return_t := T_int;
  arg_tuple_t := [T_int];
  call := fun args =>
    match args with
    | [VInt 0] => Raise (UnknownException "division by zero")
    | [VInt n] => if decide (n < 0)%Z then Raise TestFailureException else Return (VInt n)
    | _ => Raise (UnknownException "bad arguments")
    end
|}.

(** [bool same_text(const std::string& expected, int result)]: the
    expected value is kept as text and compared with the number read
    from it. *)
Definition same_text : comparator :=
  BiPredicate T_string T_int
    (fun e r =>
       match e, r with
       | VString s, VInt z => bool_decide (parse_int s = Some z)
       | _, _ => false
       end).

Definition sum_handler : handler :=
  {| func_ := sum; comp_ := DefaultComparator; static_assert_ok := eq_refl |}.

Definition sum_text_handler : handler :=
  {| func_ := sum; comp_ := same_text; static_assert_ok := eq_refl |}.

Definition record_handler : handler :=
  {| func_ := record; comp_ := DefaultComparator; static_assert_ok := eq_refl |}.

Definition tick_handler : handler :=
  {| func_ := tick; comp_ := DefaultComparator; static_assert_ok := eq_refl |}.

Definition checked_handler : handler :=
  {| func_ := checked; comp_ := DefaultComparator; static_assert_ok := eq_refl |}.

Definition trace := list (@event cpp_type cpp_value).

End Sample.


(** * Properties *)

Section Properties.

Context {ty value : Type} `{!EqDecision ty} {ST : SerializationTraits ty value}.
Variable cost : @event ty value -> N.

Local Open Scope harness_scope.

Abbreviation handler := (@GenericTestHandler ty value _ ST).
Abbreviation world := (@world ty value).

(** Bring a trace into right-nested form. *)
Ltac trace_norm := rewrite <- ?app_assoc; simpl; rewrite <- ?app_assoc.

(** ** The clock *)

Lemma now_app (w1 w2 : world) : now cost (w1 ++ w2) = (now cost w1 + now cost w2)%Z.
Proof.
  induction w1 as [|ev w1 IH]; simpl; [reflexivity|].
  rewrite IH. lia.
Qed.

(** ** Ranges of a vector seen through iterators *)

Lemma reaches_cons first I s fs :
  reaches first I (s :: fs) -> deref first I = Some s /\ reaches first (S I) fs.
Proof.
  intros H. split.
  - specialize (H 0 s eq_refl). by rewrite Nat.add_0_r in H.
  - intros j s' Hj. specialize (H (S j) s' Hj).
    by replace (S I + j) with (I + S j) by lia.
Qed.

Lemma reaches_cbegin_prefix (fs rest : list string) : reaches (cbegin (fs ++ rest)) 0 fs.
Proof.
  intros j s Hj. unfold deref, cbegin. simpl.
  rewrite lookup_app_l; [done|]. by eapply lookup_lt_Some.
Qed.

Lemma reaches_cbegin (fs : list string) : reaches (cbegin fs) 0 fs.
Proof.
  pose proof (reaches_cbegin_prefix fs []) as H. by rewrite app_nil_r in H.
Qed.

(** ** Decoding the arguments *)

Lemma decode_fields_length ts fs (args : list value) :
  decode_fields ts fs = Some args -> length fs = length ts /\ length args = length ts.
Proof.
  revert fs args. induction ts as [|t ts IH]; intros [|s fs] args H; simpl in H;
    try discriminate.
  - by inversion H.
  - destruct (Parse t s); [|discriminate].
    destruct (decode_fields ts fs) as [xs|] eqn:E; [|discriminate].
    inversion H; subst. destruct (IH _ _ E) as [H1 H2]. simpl. by rewrite H1, H2.
Qed.

Lemma parse_events_length (ts : list ty) (fs : list string) :
  length fs = length ts -> length (parse_events (value:=value) ts fs) = length ts.
Proof. intros H. unfold parse_events. rewrite length_zip_with. lia. Qed.

Lemma parse_events_are_parse (ts : list ty) (fs : list string) :
  forallb is_parse (parse_events (value:=value) ts fs) = true.
Proof.
  revert fs. induction ts as [|t ts IH]; intros [|s fs]; simpl; auto.
Qed.

(** A successful decoding: every field is parsed, in order. *)
Lemma ParseSerializedArgsImpl_ok ts : forall first I fs args (w : world),
  reaches first I fs ->
  decode_fields ts fs = Some args ->
  ParseSerializedArgsImpl ts first I w = Returns args (w ++ parse_events ts fs).
Proof.
  induction ts as [|t ts IH]; intros first I [|s fs] args w Hr Hd; simpl in Hd;
    try discriminate.
  - inversion Hd. simpl. unfold ret. by rewrite app_nil_r.
  - destruct (Parse t s) as [x|] eqn:Ep; [|discriminate].
    destruct (decode_fields ts fs) as [xs|] eqn:E; [|discriminate].
    inversion Hd; subst. apply reaches_cons in Hr as [Hs Hr].
    simpl. rewrite Hs. unfold bind at 1, SerializationTraits_Parse, bind at 1, emit.
    rewrite Ep. unfold ret at 1. unfold bind.
    rewrite (IH first (S I) fs xs _ Hr E). unfold ret.
    by rewrite <- app_assoc.
Qed.

(** A failed decoding: a deserialization error after parse events only. *)
Lemma ParseSerializedArgsImpl_fails ts : forall first I fs (w : world),
  reaches first I fs ->
  length fs = length ts ->
  decode_fields ts fs = None ->
  exists evs, ParseSerializedArgsImpl ts first I w =
                Throws (RuntimeException DeserializationError) (w ++ evs)
              /\ forallb is_parse evs = true.
Proof.
  induction ts as [|t ts IH]; intros first I [|s fs] w Hr Hl Hd; simpl in Hd, Hl;
    try discriminate.
  apply reaches_cons in Hr as [Hs Hr]. simpl. rewrite Hs.
  unfold bind at 1, SerializationTraits_Parse, bind at 1, emit.
  destruct (Parse t s) as [x|] eqn:Ep.
  - destruct (decode_fields ts fs) as [xs|] eqn:E; [discriminate|].
    destruct (IH first (S I) fs (w ++ [EvParse t s]) Hr ltac:(lia) E) as (evs & Hev & Hp).
    exists (EvParse t s :: evs). unfold ret at 1. unfold bind. rewrite Hev.
    split; [by rewrite <- app_assoc | done].
  - exists [EvParse t s]. unfold throw. done.
Qed.

Lemma decode_fields_None_at ts : forall fs i t s,
  ts !! i = Some t -> fs !! i = Some s -> Parse t s = None ->
  decode_fields ts fs = None.
Proof.
  induction ts as [|t0 ts IH]; intros [|s0 fs] i t s Ht Hs Hp; try done.
  destruct i as [|i]; simpl in *.
  - inversion Ht; inversion Hs; subst. by rewrite Hp.
  - rewrite (IH fs i t s Ht Hs Hp). by destruct (Parse t0 s0).
Qed.

Lemma get_each_all (args : list value) :
  get_each args (make_index_sequence (length args)) = args.
Proof.
  unfold get_each, make_index_sequence.
  assert (G : forall (pre l : list value),
             omap (fun i => (pre ++ l) !! i) (seq (length pre) (length l)) = l).
  { intros pre l. revert pre. induction l as [|x l IH]; intros pre; [done|].
    simpl. rewrite list_lookup_middle; [|done]. f_equal.
    specialize (IH (pre ++ [x])). rewrite <- app_assoc in IH. simpl in IH.
    rewrite length_app in IH. simpl in IH.
    by replace (length pre + 1) with (S (length pre)) in IH by lia. }
  apply (G [] args).
Qed.

(** The decoder only looks at the fields it reaches. *)
Lemma ParseSerializedArgsImpl_ext ts : forall first I first' I' fs (w : world),
  reaches first I fs -> reaches first' I' fs -> length fs = length ts ->
  ParseSerializedArgsImpl ts first I w = ParseSerializedArgsImpl ts first' I' w.
Proof.
  induction ts as [|t ts IH]; intros first I first' I' [|s fs] w H H' Hl;
    simpl in Hl; try discriminate; [done|].
  apply reaches_cons in H as [Hs H]. apply reaches_cons in H' as [Hs' H'].
  simpl. rewrite Hs, Hs'. unfold bind at 1 3.
  destruct (SerializationTraits_Parse t s w) as [x w1|x w1|]; [|done|done].
  unfold bind. rewrite (IH first (S I) first' (S I') fs w1 H H'); [done|lia].
Qed.

Lemma ParseSerializedArgs_prefix ts (fields rest : list string) (w : world) :
  ParseSerializedArgs ts (cbegin (fields ++ rest))
    {| base := fields ++ rest; pos := length fields |} w =
  ParseSerializedArgs ts (cbegin fields) (cend fields) w.
Proof.
  unfold ParseSerializedArgs, distance, cbegin, cend; simpl.
  case_decide as Hd; [|done].
  apply (ParseSerializedArgsImpl_ext ts _ 0 _ 0 fields).
  - apply reaches_cbegin_prefix.
  - apply reaches_cbegin.
  - lia.
Qed.

Lemma ParseSerializedArgs_count ts (fields : list string) (w : world) :
  length fields <> length ts ->
  ParseSerializedArgs ts (cbegin fields) (cend fields) w =
  Throws (RuntimeException DeserializationError) w.
Proof.
  intros H. unfold ParseSerializedArgs, distance, cbegin, cend; simpl.
  case_decide; [lia|done].
Qed.

Lemma ParseSerializedArgs_ok ts (fields : list string) args (w : world) :
  decode_fields ts fields = Some args ->
  ParseSerializedArgs ts (cbegin fields) (cend fields) w =
  Returns args (w ++ parse_events ts fields).
Proof.
  intros H. destruct (decode_fields_length _ _ _ H) as [Hl _].
  unfold ParseSerializedArgs, distance, cbegin, cend; simpl.
  case_decide; [|lia].
  apply ParseSerializedArgsImpl_ok; [apply reaches_cbegin|done].
Qed.

Lemma ParseSerializedArgs_fails ts (fields : list string) (w : world) :
  decode_fields ts fields = None ->
  exists evs,
    ParseSerializedArgs ts (cbegin fields) (cend fields) w =
      Throws (RuntimeException DeserializationError) (w ++ evs)
    /\ forallb is_parse evs = true.
Proof.
  intros H. destruct (decide (length fields = length ts)) as [Hl|Hl].
  - unfold ParseSerializedArgs, distance, cbegin, cend; simpl.
    case_decide; [|lia].
    apply (ParseSerializedArgsImpl_fails ts _ 0 fields); [apply reaches_cbegin|done..].
  - exists []. rewrite app_nil_r. split; [|done].
    by apply ParseSerializedArgs_count.
Qed.

(** ** The tag and the two overloads *)

Lemma ExpectedIsVoid_is_void (h : handler) :
  ExpectedIsVoid h = is_void (expected_value_t (func_ h) (comp_ h)).
Proof. unfold ExpectedIsVoid, expected_tag. by destruct (is_void _). Qed.

Lemma static_assert_both_void (h : handler) :
  is_void (expected_value_t (func_ h) (comp_ h)) = is_void (return_t (func_ h)).
Proof.
  pose proof (static_assert_ok h) as H. unfold static_assert_holds in H.
  by apply bool_decide_eq_true in H.
Qed.

Lemma ParseExpectedAndInvoke_value (h : handler) e args :
  ExpectedIsVoid h = false ->
  ParseExpectedAndInvoke cost h e args = ParseExpectedAndInvokeImpl_Value cost h e args.
Proof.
  unfold ExpectedIsVoid, ParseExpectedAndInvoke.
  by destruct (expected_tag _ _).
Qed.

Lemma ParseExpectedAndInvoke_void (h : handler) e args :
  ExpectedIsVoid h = true ->
  ParseExpectedAndInvoke cost h e args = ParseExpectedAndInvokeImpl_Void cost h e args.
Proof.
  unfold ExpectedIsVoid, ParseExpectedAndInvoke.
  by destruct (expected_tag _ _).
Qed.

Lemma ParseExpectedAndInvokeImpl_Value_eq (h : handler) e args (w : world) :
  length args = length (arg_tuple_t (func_ h)) ->
  ParseExpectedAndInvokeImpl_Value cost h e args w =
  let E := expected_value_t (func_ h) (comp_ h) in
  match Parse E e with
  | None => Throws (RuntimeException DeserializationError) (w ++ [EvParse E e])
  | Some ev =>
      match call (func_ h) args with
      | Raise x => Throws x (w ++ [EvParse E e; EvInvoke args])
      | ReturnVoid => Undefined
      | Return r =>
          Returns
            {| passed := verdict (comp_ h) ev r;
               timer := {| start_ := now cost (w ++ [EvParse E e]);
                           stop_ := now cost (w ++ [EvParse E e; EvInvoke args]) |};
               expected := Some ev;
               result := Some r |}
            (w ++ [EvParse E e; EvInvoke args; EvCompare ev r])
      end
  end.
Proof.
  intros Hl. unfold ParseExpectedAndInvokeImpl_Value, Invoke, InvokeWithTimer.
  rewrite <- Hl, get_each_all. cbv zeta.
  unfold bind, SerializationTraits_Parse, bind, emit, Start, Stop, ret, throw,
    undefined, apply_comp, bind, emit, ret; simpl.
  destruct (Parse _ e) as [ev|]; [|done].
  rewrite <- !app_assoc; simpl.
  destruct (call (func_ h) args) as [|r|x]; try done.
  rewrite <- !app_assoc; simpl. unfold verdict. done.
Qed.

Lemma ParseExpectedAndInvokeImpl_Void_eq (h : handler) e args (w : world) :
  length args = length (arg_tuple_t (func_ h)) ->
  ParseExpectedAndInvokeImpl_Void cost h e args w =
  match call (func_ h) args with
  | Raise x => Throws x (w ++ [EvInvoke args])
  | _ =>
      Returns
        {| passed := true;
           timer := {| start_ := now cost w;
                       stop_ := now cost (w ++ [EvInvoke args]) |};
           expected := None;
           result := None |}
        (w ++ [EvInvoke args])
  end.
Proof.
  intros Hl. unfold ParseExpectedAndInvokeImpl_Void, Invoke, InvokeWithTimer.
  rewrite <- Hl, get_each_all. cbv zeta.
  unfold bind, emit, Start, Stop, ret, throw; simpl.
  by destruct (call (func_ h) args) as [|r|x].
Qed.

(** ** One row *)

Lemma back_snoc (fields : list string) e : back (fields ++ [e]) = Some e.
Proof. unfold back. apply last_snoc. Qed.

Lemma RunTest_value_row (h : handler) fields e (w : world) :
  ExpectedIsVoid h = false ->
  RunTest cost h (fields ++ [e]) w =
  (args <~ ParseSerializedArgs (arg_tuple_t (func_ h)) (cbegin fields) (cend fields) ;;
   ParseExpectedAndInvokeImpl_Value cost h e args) w.
Proof.
  intros Hv. unfold RunTest. rewrite Hv.
  unfold iter_minus, cend; simpl. rewrite length_app; simpl.
  case_decide; [|lia].
  replace (length fields + 1 - 1) with (length fields) by lia.
  unfold bind. rewrite ParseSerializedArgs_prefix.
  destruct (ParseSerializedArgs _ _ _ w) as [args w1|x w1|]; [|done..].
  by rewrite back_snoc, ParseExpectedAndInvoke_value.
Qed.

Lemma RunTest_void_row (h : handler) row (w : world) :
  ExpectedIsVoid h = true ->
  RunTest cost h row w =
  (args <~ ParseSerializedArgs (arg_tuple_t (func_ h)) (cbegin row) (cend row) ;;
   match back row with
   | None => undefined
   | Some e => ParseExpectedAndInvokeImpl_Void cost h e args
   end) w.
Proof.
  intros Hv. unfold RunTest. rewrite Hv.
  unfold iter_minus; simpl. rewrite Nat.sub_0_r.
  replace {| base := row; pos := length row |} with (cend row) by done.
  unfold bind.
  destruct (ParseSerializedArgs _ _ _ w) as [args w1|x w1|]; [|done..].
  destruct (back row); [|done]. by rewrite ParseExpectedAndInvoke_void.
Qed.

Lemma RunTest_nil_never_returns (h : handler) (w : world) out w' :
  RunTest cost h [] w <> Returns out w'.
Proof.
  destruct (ExpectedIsVoid h) eqn:Hv.
  - rewrite RunTest_void_row by done. unfold bind.
    destruct (ParseSerializedArgs _ _ _ w); simpl; done.
  - unfold RunTest. rewrite Hv. done.
Qed.

Lemma nonempty_snoc (row : list string) :
  row <> [] -> exists fields e, row = fields ++ [e].
Proof.
  intros H. destruct (exists_last H) as (fields & e & ->). eauto.
Qed.

(** What a returning run of a non-void handler went through. *)
Lemma RunTest_value_returns_inv (h : handler) row (w : world) out w' :
  ExpectedIsVoid h = false ->
  RunTest cost h row w = Returns out w' ->
  exists fields e args ev r,
    let E := expected_value_t (func_ h) (comp_ h) in
    let w1 := w ++ parse_events (arg_tuple_t (func_ h)) fields ++ [EvParse E e] in
    row = fields ++ [e]
    /\ decode_fields (arg_tuple_t (func_ h)) fields = Some args
    /\ Parse E e = Some ev
    /\ call (func_ h) args = Return r
    /\ out = {| passed := verdict (comp_ h) ev r;
                timer := {| start_ := now cost w1;
                            stop_ := now cost (w1 ++ [EvInvoke args]) |};
                expected := Some ev;
                result := Some r |}
    /\ w' = w1 ++ [EvInvoke args; EvCompare ev r].
Proof.
  intros Hv H.
  destruct (decide (row = [])) as [->|Hne].
  { by apply RunTest_nil_never_returns in H. }
  destruct (nonempty_snoc row Hne) as (fields & e & ->).
  rewrite RunTest_value_row in H by done. unfold bind in H.
  destruct (decode_fields (arg_tuple_t (func_ h)) fields) as [args|] eqn:Hd.
  - rewrite (ParseSerializedArgs_ok _ _ _ _ Hd) in H.
    destruct (decode_fields_length _ _ _ Hd) as [_ Hl].
    rewrite ParseExpectedAndInvokeImpl_Value_eq in H by done. cbv zeta in H.
    destruct (Parse _ e) as [ev|] eqn:Ep; [|discriminate].
    destruct (call (func_ h) args) as [|r|x] eqn:Ec; try discriminate.
    inversion H; subst. exists fields, e, args, ev, r. cbv zeta.
    rewrite <- !app_assoc. simpl. done.
  - destruct (ParseSerializedArgs_fails _ _ w Hd) as (evs & Hev & _).
    rewrite Hev in H. discriminate.
Qed.

(** What a returning run of a void handler went through. *)
Lemma RunTest_void_returns_inv (h : handler) row (w : world) out w' :
  ExpectedIsVoid h = true ->
  RunTest cost h row w = Returns out w' ->
  exists args,
    let w1 := w ++ parse_events (arg_tuple_t (func_ h)) row in
    row <> []
    /\ decode_fields (arg_tuple_t (func_ h)) row = Some args
    /\ out = {| passed := true;
                timer := {| start_ := now cost w1;
                            stop_ := now cost (w1 ++ [EvInvoke args]) |};
                expected := None;
                result := None |}
    /\ w' = w1 ++ [EvInvoke args].
Proof.
  intros Hv H.
  destruct (decide (row = [])) as [->|Hne].
  { by apply RunTest_nil_never_returns in H. }
  rewrite RunTest_void_row in H by done. unfold bind in H.
  destruct (decode_fields (arg_tuple_t (func_ h)) row) as [args|] eqn:Hd.
  - rewrite (ParseSerializedArgs_ok _ _ _ _ Hd) in H.
    destruct (decode_fields_length _ _ _ Hd) as [_ Hl].
    destruct (nonempty_snoc row Hne) as (fields & e & Hrow).
    assert (Hb : back row = Some e) by (rewrite Hrow; apply back_snoc).
    rewrite Hb in H.
    rewrite ParseExpectedAndInvokeImpl_Void_eq in H by done.
    exists args. cbv zeta.
    destruct (call (func_ h) args) as [|r|x] eqn:Ec; try discriminate;
      inversion H; subst; done.
  - destruct (ParseSerializedArgs_fails _ _ w Hd) as (evs & Hev & _).
    rewrite Hev in H. discriminate.
Qed.

Lemma is_void_true (t : ty) : is_void t = true <-> t = void.
Proof. unfold is_void. apply bool_decide_eq_true. Qed.

Lemma is_void_false (t : ty) : is_void t = false <-> t <> void.
Proof. unfold is_void. apply bool_decide_eq_false. Qed.

Lemma ExpectedIsVoid_return_t (h : handler) :
  ExpectedIsVoid h = is_void (return_t (func_ h)).
Proof. rewrite ExpectedIsVoid_is_void. apply static_assert_both_void. Qed.

(** ** Matching a header *)

Lemma MatchFunctionSignatureImpl_spec (ts : list ty) :
  forall first I fs (w : world),
  reaches first I fs -> length fs = length ts ->
  MatchFunctionSignatureImpl ts first I w =
  if decide (fs = map Name ts) then Returns tt w
  else Throws (RuntimeException SignatureMismatch) w.
Proof.
  induction ts as [|t ts IH]; intros first I [|s fs] w Hr Hl; simpl in Hl;
    try discriminate.
  - cbn [MatchFunctionSignatureImpl map]. by destruct (decide _).
  - apply reaches_cons in Hr as [Hs Hr].
    cbn [MatchFunctionSignatureImpl map]. rewrite Hs.
    destruct (decide (s = Name t)) as [->|Hne].
    + rewrite (IH first (S I) fs w Hr) by lia.
      destruct (decide (fs = _)), (decide (_ :: fs = _)); try done; congruence.
    + destruct (decide (_ :: fs = _)); [congruence|done].
Qed.

Lemma signature_tags_length (h : handler) :
  length (signature_tags h) =
  length (arg_tuple_t (func_ h)) +
  (if is_void (expected_value_t (func_ h) (comp_ h)) then 0 else 1).
Proof.
  unfold signature_tags. rewrite length_app, length_map.
  by destruct (is_void _).
Qed.

Lemma ParseSignature_spec (h : handler) header (w : world) :
  ParseSignature h header w =
  if decide (header = signature_tags h) then Returns tt w
  else Throws (RuntimeException SignatureMismatch) w.
Proof.
  unfold ParseSignature, MatchFunctionSignature.
  pose proof (signature_tags_length h) as Hlen.
  unfold distance, cbegin, cend; simpl.
  case_decide as Hd.
  - rewrite (MatchFunctionSignatureImpl_spec _ _ 0 header w).
    + replace (map Name (arg_tuple_t (func_ h) ++ _)) with (signature_tags h);
        [done|].
      unfold signature_tags. rewrite map_app. by destruct (is_void _).
    + apply reaches_cbegin.
    + rewrite length_app. destruct (is_void _); simpl in *; lia.
  - case_decide as He; [|done]. subst header. lia.
Qed.

(** C1 (amended). [ParseSignature] succeeds on a header if and only if
    the header is exactly the tags of the declared parameter types
    followed, unless the expected-value type is void, by the tag of the
    expected-value type; every other header, in particular one with a
    single tag changed or of another length, fails with a signature
    mismatch. Under the default comparator these are the tags of the
    declared parameter and return types, as soon as the return type and
    its serialization type carry the same tag. *)
Theorem ParseSignature_accepts_exactly_signature_tags (h : handler) (w : world) :
  (forall header, ParseSignature h header w = Returns tt w <-> header = signature_tags h)
  /\ (forall header, header <> signature_tags h ->
        ParseSignature h header w = Throws (RuntimeException SignatureMismatch) w)
  /\ (forall i tag, i < length (signature_tags h) ->
        signature_tags h !! i <> Some tag ->
        ParseSignature h (<[i:=tag]> (signature_tags h)) w =
        Throws (RuntimeException SignatureMismatch) w)
  /\ (forall header, length header <> length (signature_tags h) ->
        ParseSignature h header w = Throws (RuntimeException SignatureMismatch) w)
  /\ (comp_ h = DefaultComparator ->
      Name (serialization_type (return_t (func_ h))) = Name (return_t (func_ h)) ->
      signature_tags h = declared_tags (func_ h)).
Proof.
  assert (Hneq : forall header, header <> signature_tags h ->
            ParseSignature h header w = Throws (RuntimeException SignatureMismatch) w).
  { intros header Hne. rewrite ParseSignature_spec. by case_decide. }
  repeat split.
  - rewrite ParseSignature_spec. by case_decide.
  - intros ->. rewrite ParseSignature_spec. by case_decide.
  - exact Hneq.
  - intros i tag Hi Hne. apply Hneq. intros Heq.
    apply Hne. rewrite <- Heq at 1. by apply list_lookup_insert_eq.
  - intros header Hl. apply Hneq. congruence.
  - intros Hc Hn. unfold signature_tags, declared_tags.
    rewrite static_assert_both_void. unfold expected_value_t.
    rewrite Hc. simpl. by rewrite Hn.
Qed.

(** C3. For every handler, the expected-value type is void if and only
    if the return type of the tested function is void, so the overload
    chosen per row is the one of the return type; an instantiation that
    violates this is rejected when the handler is built, and one that
    satisfies it is built with the given function and comparator. *)
Theorem expected_void_iff_return_void :
  (forall h : handler,
      expected_value_t (func_ h) (comp_ h) = void <-> return_t (func_ h) = void)
  /\ (forall h : handler, ExpectedIsVoid h = is_void (return_t (func_ h)))
  /\ (forall (F : @Function ty value) C,
        instantiate F C = None <->
        ~ (expected_value_t F C = void <-> return_t F = void))
  /\ (forall (F : @Function ty value) C h,
        instantiate F C = Some h -> func_ h = F /\ comp_ h = C).
Proof.
  repeat split.
  - intros H. apply is_void_true. rewrite <- static_assert_both_void.
    by apply is_void_true.
  - intros H. apply is_void_true. rewrite static_assert_both_void.
    by apply is_void_true.
  - apply ExpectedIsVoid_return_t.
  - unfold instantiate. destruct (decide _) as [ok|bad]; [done|].
    intros _ Hiff. apply bad. unfold static_assert_holds.
    apply bool_decide_eq_true.
    destruct (is_void (return_t F)) eqn:Er.
    + apply is_void_true. apply Hiff. by apply is_void_true.
    + apply is_void_false. intros Hv. apply Hiff in Hv.
      apply is_void_true in Hv. congruence.
  - intros Hn. unfold instantiate. destruct (decide _) as [ok|bad]; [|done].
    exfalso. apply Hn. unfold static_assert_holds in ok.
    apply bool_decide_eq_true in ok. rewrite <- !is_void_true. by rewrite ok.
  - unfold instantiate in H. destruct (decide _); [|done]. by inversion H.
  - unfold instantiate in H. destruct (decide _); [|done]. by inversion H.
Qed.

(** ** Rows that decode *)

Lemma ExpectedIsVoid_true (h : handler) :
  ExpectedIsVoid h = true <-> return_t (func_ h) = void.
Proof. rewrite ExpectedIsVoid_return_t. apply is_void_true. Qed.

Lemma ExpectedIsVoid_false (h : handler) :
  ExpectedIsVoid h = false <-> return_t (func_ h) <> void.
Proof. rewrite ExpectedIsVoid_return_t. apply is_void_false. Qed.

Lemma RunTest_value_decoded (h : handler) fields e args ev (w : world) :
  ExpectedIsVoid h = false ->
  decode_fields (arg_tuple_t (func_ h)) fields = Some args ->
  Parse (expected_value_t (func_ h) (comp_ h)) e = Some ev ->
  let E := expected_value_t (func_ h) (comp_ h) in
  let w1 := w ++ parse_events (arg_tuple_t (func_ h)) fields ++ [EvParse E e] in
  RunTest cost h (fields ++ [e]) w =
  match call (func_ h) args with
  | Raise x => Throws x (w1 ++ [EvInvoke args])
  | ReturnVoid => Undefined
  | Return r =>
      Returns
        {| passed := verdict (comp_ h) ev r;
           timer := {| start_ := now cost w1;
                       stop_ := now cost (w1 ++ [EvInvoke args]) |};
           expected := Some ev;
           result := Some r |}
        (w1 ++ [EvInvoke args; EvCompare ev r])
  end.
Proof.
  intros Hv Hd Hp. cbv zeta.
  rewrite RunTest_value_row by done. unfold bind.
  rewrite (ParseSerializedArgs_ok _ _ _ _ Hd).
  destruct (decode_fields_length _ _ _ Hd) as [_ Hl].
  rewrite ParseExpectedAndInvokeImpl_Value_eq by done. cbv zeta.
  rewrite Hp.
  destruct (call (func_ h) args); trace_norm; done.
Qed.

Lemma RunTest_value_bad_expected (h : handler) fields e args (w : world) :
  ExpectedIsVoid h = false ->
  decode_fields (arg_tuple_t (func_ h)) fields = Some args ->
  Parse (expected_value_t (func_ h) (comp_ h)) e = None ->
  RunTest cost h (fields ++ [e]) w =
  Throws (RuntimeException DeserializationError)
    (w ++ parse_events (arg_tuple_t (func_ h)) fields ++
       [EvParse (expected_value_t (func_ h) (comp_ h)) e]).
Proof.
  intros Hv Hd Hp.
  rewrite RunTest_value_row by done. unfold bind.
  rewrite (ParseSerializedArgs_ok _ _ _ _ Hd).
  destruct (decode_fields_length _ _ _ Hd) as [_ Hl].
  rewrite ParseExpectedAndInvokeImpl_Value_eq by done. cbv zeta.
  rewrite Hp. by rewrite <- !app_assoc.
Qed.

Lemma RunTest_void_decoded (h : handler) row args (w : world) :
  ExpectedIsVoid h = true ->
  row <> [] ->
  decode_fields (arg_tuple_t (func_ h)) row = Some args ->
  let w1 := w ++ parse_events (arg_tuple_t (func_ h)) row in
  RunTest cost h row w =
  match call (func_ h) args with
  | Raise x => Throws x (w1 ++ [EvInvoke args])
  | _ =>
      Returns
        {| passed := true;
           timer := {| start_ := now cost w1;
                       stop_ := now cost (w1 ++ [EvInvoke args]) |};
           expected := None;
           result := None |}
        (w1 ++ [EvInvoke args])
  end.
Proof.
  intros Hv Hne Hd. cbv zeta.
  rewrite RunTest_void_row by done. unfold bind.
  rewrite (ParseSerializedArgs_ok _ _ _ _ Hd).
  destruct (decode_fields_length _ _ _ Hd) as [_ Hl].
  destruct (nonempty_snoc row Hne) as (fields & e & Hrow).
  assert (Hb : back row = Some e) by (rewrite Hrow; apply back_snoc).
  rewrite Hb. rewrite ParseExpectedAndInvokeImpl_Void_eq by done.
  destruct (call (func_ h) args); trace_norm; done.
Qed.



(** C4. For a non-void handler [RunTest] splits every row at index
    [length row - 1]: the fields before that index are decoded as the
    arguments and the last field is the serialized expected value (the
    empty row has no last field, and no defined result). For a void
    handler the split is at [length row]: all the fields are decoded as
    the arguments. *)
Theorem RunTest_splits_row (h : handler) (w : world) :
  (return_t (func_ h) <> void ->
   forall row,
     RunTest cost h row w =
     match back row with
     | None => Undefined
     | Some e =>
         (args <~ ParseSerializedArgs (arg_tuple_t (func_ h))
                    (cbegin (take (length row - 1) row))
                    (cend (take (length row - 1) row)) ;;
          ParseExpectedAndInvokeImpl_Value cost h e args) w
     end)
  /\ (return_t (func_ h) = void ->
      forall row,
        take (length row - 0) row = row
        /\ RunTest cost h row w =
           (args <~ ParseSerializedArgs (arg_tuple_t (func_ h))
                      (cbegin row) (cend row) ;;
            match back row with
            | None => undefined
            | Some e => ParseExpectedAndInvokeImpl_Void cost h e args
            end) w).
Proof.
  split.
  - intros Hv%ExpectedIsVoid_false row.
    destruct (decide (row = [])) as [->|Hne].
    + unfold RunTest. by rewrite Hv.
    + destruct (nonempty_snoc row Hne) as (fields & e & ->).
      rewrite back_snoc, length_app. simpl.
      replace (length fields + 1 - 1) with (length fields) by lia.
      rewrite take_app_length. by apply RunTest_value_row.
  - intros Hv%ExpectedIsVoid_true row. split.
    + rewrite Nat.sub_0_r. apply firstn_all.
    + by apply RunTest_void_row.
Qed.

(** C5. A run of a void handler that yields a [TestOutput] leaves
    [expected] and [result] absent; a run of a non-void handler that
    yields one populates both, and it does yield one, with the decoded
    expected value and the actual result, whenever the fields decode
    and the function returns a value. *)
Theorem TestOutput_optionals (h : handler) (w : world) :
  (return_t (func_ h) = void ->
   forall row out w',
     RunTest cost h row w = Returns out w' ->
     expected out = None /\ result out = None)
  /\ (return_t (func_ h) <> void ->
      forall row out w',
        RunTest cost h row w = Returns out w' ->
        is_Some (expected out) /\ is_Some (result out))
  /\ (return_t (func_ h) <> void ->
      forall fields e args ev r,
        decode_fields (arg_tuple_t (func_ h)) fields = Some args ->
        Parse (expected_value_t (func_ h) (comp_ h)) e = Some ev ->
        call (func_ h) args = Return r ->
        exists out w',
          RunTest cost h (fields ++ [e]) w = Returns out w'
          /\ expected out = Some ev /\ result out = Some r).
Proof.
  split; [|split].
  - intros Hv%ExpectedIsVoid_true row out w' H.
    destruct (RunTest_void_returns_inv h row w out w' Hv H) as (args & _ & _ & -> & _).
    done.
  - intros Hv%ExpectedIsVoid_false row out w' H.
    destruct (RunTest_value_returns_inv h row w out w' Hv H)
      as (fields & e & args & ev & r & _ & _ & _ & _ & -> & _).
    split; by eexists.
  - intros Hv%ExpectedIsVoid_false fields e args ev r Hd Hp Hc.
    pose proof (RunTest_value_decoded h fields e args ev w Hv Hd Hp) as H.
    cbv zeta in H. rewrite Hc in H.
    eexists _, _. split; [exact H|done].
Qed.

(** C6. For a non-void handler and a row whose fields decode, the
    verdict is the comparator applied to the decoded expected value,
    first, and the result of the function, second; conversely every
    verdict of a non-void handler is such an application. For a void
    handler every run that returns reports [passed = true], and a run
    does return, with [passed = true], whenever the fields of a
    non-empty row decode and the invocation returns. *)
Theorem passed_is_comparator_verdict (h : handler) (w : world) :
  (return_t (func_ h) <> void ->
   forall fields e args ev r,
     decode_fields (arg_tuple_t (func_ h)) fields = Some args ->
     Parse (expected_value_t (func_ h) (comp_ h)) e = Some ev ->
     call (func_ h) args = Return r ->
     exists out w',
       RunTest cost h (fields ++ [e]) w = Returns out w'
       /\ passed out = verdict (comp_ h) ev r)
  /\ (return_t (func_ h) <> void ->
      forall row out w',
        RunTest cost h row w = Returns out w' ->
        exists ev r,
          expected out = Some ev /\ result out = Some r
          /\ passed out = verdict (comp_ h) ev r)
  /\ (return_t (func_ h) = void ->
      forall row out w',
        RunTest cost h row w = Returns out w' -> passed out = true)
  /\ (return_t (func_ h) = void ->
      forall row args,
        row <> [] ->
        decode_fields (arg_tuple_t (func_ h)) row = Some args ->
        (forall x, call (func_ h) args <> Raise x) ->
        exists out w',
          RunTest cost h row w = Returns out w' /\ passed out = true).
Proof.
  split; [|split; [|split]].
  - intros Hv%ExpectedIsVoid_false fields e args ev r Hd Hp Hc.
    pose proof (RunTest_value_decoded h fields e args ev w Hv Hd Hp) as H.
    cbv zeta in H. rewrite Hc in H.
    eexists _, _. split; [exact H|done].
  - intros Hv%ExpectedIsVoid_false row out w' H.
    destruct (RunTest_value_returns_inv h row w out w' Hv H)
      as (fields & e & args & ev & r & _ & _ & _ & _ & -> & _).
    by exists ev, r.
  - intros Hv%ExpectedIsVoid_true row out w' H.
    destruct (RunTest_void_returns_inv h row w out w' Hv H) as (args & _ & _ & -> & _).
    done.
  - intros Hv%ExpectedIsVoid_true row args Hne Hd Hc.
    pose proof (RunTest_void_decoded h row args w Hv Hne Hd) as H.
    cbv zeta in H.
    destruct (call (func_ h) args) as [|rv|x] eqn:Ec.
    + eexists _, _. split; [exact H|done].
    + eexists _, _. split; [exact H|done].
    + by destruct (Hc x).
Qed.

Lemma run_rows_head_throws (h : handler) row rest (w : world) x w' :
  RunTest cost h row w = Throws x w' ->
  x <> TestFailureException ->
  run_rows cost h (row :: rest) w = Throws x w'.
Proof.
  intros H Hx. simpl. unfold bind at 1, run_row. rewrite H.
  by destruct x.
Qed.

Lemma run_rows_head_test_failure (h : handler) row rest (w : world) w' :
  RunTest cost h row w = Throws TestFailureException w' ->
  run_rows cost h (row :: rest) w =
  (rs <~ run_rows cost h rest ;; ret (FailedByException :: rs)) w'.
Proof.
  intros H. simpl. unfold bind at 1, run_row. by rewrite H.
Qed.

(** C7. When a field in an argument position cannot be parsed as the
    type of that parameter, [RunTest] throws a deserialization error:
    there is no [TestOutput], only parsers have run by then (the tested
    function has not been called), and the loop over the rows stops
    with that error. *)
Theorem unparseable_argument_fails_row (h : handler) row (w : world) i t s :
  arg_tuple_t (func_ h) !! i = Some t ->
  row !! i = Some s ->
  i < length row - (if ExpectedIsVoid h then 0 else 1) ->
  Parse t s = None ->
  exists evs,
    RunTest cost h row w =
      Throws (RuntimeException DeserializationError) (w ++ evs)
    /\ forallb is_parse evs = true
    /\ existsb is_invoke evs = false
    /\ forall rest,
         run_rows cost h (row :: rest) w =
           Throws (RuntimeException DeserializationError) (w ++ evs).
Proof.
  intros Ht Hs Hi Hp.
  assert (Hgoal : exists evs,
    RunTest cost h row w =
      Throws (RuntimeException DeserializationError) (w ++ evs)
    /\ forallb is_parse evs = true).
  { destruct (ExpectedIsVoid h) eqn:Hv.
    - pose proof (decode_fields_None_at _ _ _ _ _ Ht Hs Hp) as Hd.
      rewrite RunTest_void_row by done. unfold bind.
      destruct (ParseSerializedArgs_fails _ _ w Hd) as (evs & -> & Hall).
      by exists evs.
    - assert (Hne : row <> []) by (intros ->; done).
      destruct (nonempty_snoc row Hne) as (fields & e & ->).
      rewrite length_app in Hi. simpl in Hi.
      rewrite lookup_app_l in Hs by lia.
      pose proof (decode_fields_None_at _ _ _ _ _ Ht Hs Hp) as Hd.
      rewrite RunTest_value_row by done. unfold bind.
      destruct (ParseSerializedArgs_fails _ _ w Hd) as (evs & -> & Hall).
      by exists evs. }
  destruct Hgoal as (evs & Hrun & Hall). exists evs.
  repeat split; try done.
  - clear Hrun. induction evs as [|ev evs IH]; [done|].
    simpl in *. apply andb_true_iff in Hall as [Hev Hall].
    rewrite (IH Hall). by destruct ev.
  - intros rest. by apply run_rows_head_throws.
Qed.

(** C8. [RunTest] handles no exception of the tested function: when the
    fields decode and the function raises, the same exception leaves
    [RunTest]. In the loop over the rows a [TestFailureException] marks
    the row as failed and the remaining rows are run; any other
    exception ends the run. *)
Theorem tested_function_exceptions (h : handler) (w : world) :
  (return_t (func_ h) <> void ->
   forall fields e args ev x,
     decode_fields (arg_tuple_t (func_ h)) fields = Some args ->
     Parse (expected_value_t (func_ h) (comp_ h)) e = Some ev ->
     call (func_ h) args = Raise x ->
     RunTest cost h (fields ++ [e]) w =
     Throws x (w ++ parse_events (arg_tuple_t (func_ h)) fields ++
                 [EvParse (expected_value_t (func_ h) (comp_ h)) e; EvInvoke args]))
  /\ (return_t (func_ h) = void ->
      forall row args x,
        row <> [] ->
        decode_fields (arg_tuple_t (func_ h)) row = Some args ->
        call (func_ h) args = Raise x ->
        RunTest cost h row w =
        Throws x (w ++ parse_events (arg_tuple_t (func_ h)) row ++ [EvInvoke args]))
  /\ (forall row rest w',
        RunTest cost h row w = Throws TestFailureException w' ->
        run_rows cost h (row :: rest) w =
        (rs <~ run_rows cost h rest ;; ret (FailedByException :: rs)) w'
        /\ row_passed (value:=value) FailedByException = false)
  /\ (forall row rest x w',
        RunTest cost h row w = Throws x w' ->
        x <> TestFailureException ->
        run_rows cost h (row :: rest) w = Throws x w').
Proof.
  split; [|split; [|split]].
  - intros Hv%ExpectedIsVoid_false fields e args ev x Hd Hp Hc.
    pose proof (RunTest_value_decoded h fields e args ev w Hv Hd Hp) as H.
    cbv zeta in H. rewrite Hc in H. rewrite H.
    by rewrite <- !app_assoc.
  - intros Hv%ExpectedIsVoid_true row args x Hne Hd Hc.
    pose proof (RunTest_void_decoded h row args w Hv Hne Hd) as H.
    cbv zeta in H. rewrite Hc in H. rewrite H.
    by rewrite <- !app_assoc.
  - intros row rest w' H. split; [|done].
    by apply run_rows_head_test_failure.
  - intros row rest x w' H Hx. by apply run_rows_head_throws.
Qed.

(** C9. In every run that yields a [TestOutput], the timer is started
    after all parsing, of the arguments and of the expected value, and
    stopped right after the call, before the comparator runs; the
    elapsed time is the time of the call alone and is not negative. *)
Theorem elapsed_covers_only_the_invocation (h : handler) row (w : world) out w' :
  RunTest cost h row w = Returns out w' ->
  exists before args after,
    w' = w ++ before ++ [EvInvoke args] ++ after
    /\ forallb is_parse before = true
    /\ length before =
       length (arg_tuple_t (func_ h)) + (if ExpectedIsVoid h then 0 else 1)
    /\ (if ExpectedIsVoid h then after = []
        else exists ev r, after = [EvCompare ev r])
    /\ start_ (timer out) = now cost (w ++ before)
    /\ stop_ (timer out) = now cost (w ++ before ++ [EvInvoke args])
    /\ elapsed (timer out) = Z.of_N (cost (EvInvoke args))
    /\ (0 <= elapsed (timer out))%Z.
Proof.
  intros H. destruct (ExpectedIsVoid h) eqn:Hv.
  - destruct (RunTest_void_returns_inv h row w out w' Hv H)
      as (args & _ & Hd & -> & ->).
    destruct (decode_fields_length _ _ _ Hd) as [Hl _].
    exists (parse_events (arg_tuple_t (func_ h)) row), args, [].
    unfold elapsed. simpl. rewrite <- ?app_assoc, ?now_app. simpl.
    repeat split; try done; try lia.
    + apply parse_events_are_parse.
    + rewrite parse_events_length by done. lia.
  - destruct (RunTest_value_returns_inv h row w out w' Hv H)
      as (fields & e & args & ev & r & -> & Hd & Hp & Hc & -> & ->).
    destruct (decode_fields_length _ _ _ Hd) as [Hl _].
    exists (parse_events (arg_tuple_t (func_ h)) fields ++
              [EvParse (expected_value_t (func_ h) (comp_ h)) e]), args,
           [EvCompare ev r].
    unfold elapsed. simpl. rewrite <- ?app_assoc, ?now_app. simpl.
    repeat split; try done; try lia.
    + rewrite forallb_app, parse_events_are_parse. done.
    + rewrite length_app, parse_events_length by done. simpl. lia.
    + by exists ev, r.
Qed.

(** C10. [RunTest] never yields a [TestOutput] on the empty row. For a
    void function without parameters the empty header is the accepted
    one and the empty row is the only row whose fields decode, yet
    [RunTest] has no defined result on it: the last field is read
    before the overload is chosen. Every other row of such a handler is
    rejected for its number of fields. *)
Theorem RunTest_requires_nonempty_row (h : handler) (w : world) :
  (forall out w', RunTest cost h [] w <> Returns out w')
  /\ (return_t (func_ h) = void ->
      arg_tuple_t (func_ h) = [] ->
      ParseSignature h [] w = Returns tt w
      /\ decode_fields (arg_tuple_t (func_ h)) [] = Some []
      /\ back [] = None
      /\ RunTest cost h [] w = Undefined
      /\ forall row, row <> [] ->
           RunTest cost h row w = Throws (RuntimeException DeserializationError) w).
Proof.
  split.
  - intros out w'. apply RunTest_nil_never_returns.
  - intros Hv Ha. pose proof Hv as Hv'. apply ExpectedIsVoid_true in Hv'.
    repeat split.
    + rewrite ParseSignature_spec.
      unfold signature_tags. rewrite Ha, <- ExpectedIsVoid_is_void, Hv'. done.
    + by rewrite Ha.
    + rewrite RunTest_void_row by done. rewrite Ha. done.
    + intros row Hne. rewrite RunTest_void_row by done. unfold bind.
      rewrite ParseSerializedArgs_count; [done|].
      rewrite Ha. destruct row; done.
Qed.

(** * Further properties of the handler *)

(** ** The shape of a run

    Whatever happened before, a run of [RunTest] on a row appends a
    trace that the row determines, and ends in one of four ways. *)

Lemma ParseSerializedArgsImpl_fails_frame ts : forall first I fs,
  reaches first I fs ->
  length fs = length ts ->
  decode_fields ts fs = None ->
  exists evs,
    forallb is_parse evs = true
    /\ forall w : world,
         ParseSerializedArgsImpl ts first I w =
         Throws (RuntimeException DeserializationError) (w ++ evs).
Proof.
  induction ts as [|t ts IH]; intros first I [|s fs] Hr Hl Hd; simpl in Hd, Hl;
    try discriminate.
  apply reaches_cons in Hr as [Hs Hr].
  destruct (Parse t s) as [x|] eqn:Ep.
  - destruct (decode_fields ts fs) as [xs|] eqn:E; [discriminate|].
    destruct (IH first (S I) fs Hr ltac:(lia) E) as (evs & Hp & Hev).
    exists (EvParse t s :: evs). split; [done|]. intros w.
    simpl. rewrite Hs.
    unfold bind at 1, SerializationTraits_Parse, bind at 1, emit.
    rewrite Ep. unfold ret at 1. unfold bind. rewrite Hev.
    by rewrite <- app_assoc.
  - exists [EvParse t s]. split; [done|]. intros w.
    simpl. rewrite Hs.
    unfold bind at 1, SerializationTraits_Parse, bind at 1, emit.
    rewrite Ep. done.
Qed.

Lemma ParseSerializedArgs_fails_frame ts (fields : list string) :
  decode_fields ts fields = None ->
  exists evs,
    forallb is_parse evs = true
    /\ forall w : world,
         ParseSerializedArgs ts (cbegin fields) (cend fields) w =
         Throws (RuntimeException DeserializationError) (w ++ evs).
Proof.
  intros H. destruct (decide (length fields = length ts)) as [Hl|Hl].
  - destruct (ParseSerializedArgsImpl_fails_frame ts (cbegin fields) 0 fields)
      as (evs & Hp & Hev); [apply reaches_cbegin|done..|].
    exists evs. split; [done|]. intros w.
    unfold ParseSerializedArgs, distance, cbegin, cend; simpl.
    case_decide; [|lia]. apply Hev.
  - exists []. split; [done|]. intros w. rewrite app_nil_r.
    by apply ParseSerializedArgs_count.
Qed.

Lemma RunTest_shapes (h : handler) row :
  ((forall w : world, RunTest cost h row w = Undefined)
   /\ ((row = [] /\ (ExpectedIsVoid h = false \/ arg_tuple_t (func_ h) = []))
       \/ (ExpectedIsVoid h = false
           /\ exists args, call (func_ h) args = ReturnVoid)))
  \/ (exists evs,
        forallb is_parse evs = true
        /\ forall w : world,
             RunTest cost h row w =
             Throws (RuntimeException DeserializationError) (w ++ evs))
  \/ (exists before args x,
        forallb is_parse before = true
        /\ call (func_ h) args = Raise x
        /\ forall w : world,
             RunTest cost h row w = Throws x (w ++ before ++ [EvInvoke args]))
  \/ (exists before args after p e r,
        forallb is_parse before = true
        /\ ((ExpectedIsVoid h = true /\ after = [] /\ p = true
             /\ e = None /\ r = None)
            \/ (exists ev rv,
                  ExpectedIsVoid h = false /\ after = [EvCompare ev rv]
                  /\ p = verdict (comp_ h) ev rv
                  /\ e = Some ev /\ r = Some rv
                  /\ call (func_ h) args = Return rv))
        /\ forall w : world,
             RunTest cost h row w =
             Returns
               {| passed := p;
                  timer := {| start_ := now cost (w ++ before);
                              stop_ := now cost (w ++ before ++ [EvInvoke args]) |};
                  expected := e;
                  result := r |}
               (w ++ before ++ [EvInvoke args] ++ after)).
Proof.
  destruct (ExpectedIsVoid h) eqn:Hv.
  - (* the void overload *)
    destruct (decide (row = [])) as [->|Hne].
    + destruct (arg_tuple_t (func_ h)) as [|t ts] eqn:Ha.
      * left. split; [|left; auto]. intros w.
        rewrite RunTest_void_row by done. by rewrite Ha.
      * right; left. exists []. split; [done|]. intros w.
        rewrite RunTest_void_row by done. unfold bind.
        rewrite ParseSerializedArgs_count by (rewrite Ha; done).
        by rewrite app_nil_r.
    + destruct (decode_fields (arg_tuple_t (func_ h)) row) as [args|] eqn:Hd.
      * pose proof (fun w => RunTest_void_decoded h row args w Hv Hne Hd) as H.
        cbv zeta in H.
        destruct (call (func_ h) args) as [|rv|x] eqn:Hc.
        -- do 3 right.
           exists (parse_events (arg_tuple_t (func_ h)) row), args, [], true, None, None.
           split; [apply parse_events_are_parse|]. split; [left; done|].
           intros w. rewrite H. trace_norm. done.
        -- do 3 right.
           exists (parse_events (arg_tuple_t (func_ h)) row), args, [], true, None, None.
           split; [apply parse_events_are_parse|]. split; [left; done|].
           intros w. rewrite H. trace_norm. done.
        -- do 2 right; left.
           exists (parse_events (arg_tuple_t (func_ h)) row), args, x.
           split; [apply parse_events_are_parse|]. split; [done|].
           intros w. rewrite H. trace_norm. done.
      * right; left.
        destruct (ParseSerializedArgs_fails_frame _ _ Hd) as (evs & Hp & Hev).
        exists evs. split; [done|]. intros w.
        rewrite RunTest_void_row by done. unfold bind. by rewrite Hev.
  - (* the value overload *)
    destruct (decide (row = [])) as [->|Hne].
    { left. split; [|left; auto]. intros w. unfold RunTest. by rewrite Hv. }
    destruct (nonempty_snoc row Hne) as (fields & s & ->).
    destruct (decode_fields (arg_tuple_t (func_ h)) fields) as [args|] eqn:Hd.
    + destruct (Parse (expected_value_t (func_ h) (comp_ h)) s) as [ev|] eqn:Hp.
      * pose proof (fun w => RunTest_value_decoded h fields s args ev w Hv Hd Hp) as H.
        cbv zeta in H.
        assert (Hb : forallb is_parse
                       (parse_events (value:=value) (arg_tuple_t (func_ h)) fields ++
                          [EvParse (expected_value_t (func_ h) (comp_ h)) s]) = true).
        { rewrite forallb_app, parse_events_are_parse. done. }
        destruct (call (func_ h) args) as [|rv|x] eqn:Hc.
        -- left. split; [done|]. right. split; [done|]. by exists args.
        -- do 3 right.
           exists (parse_events (arg_tuple_t (func_ h)) fields ++
                     [EvParse (expected_value_t (func_ h) (comp_ h)) s]),
                  args, [EvCompare ev rv], (verdict (comp_ h) ev rv), (Some ev), (Some rv).
           split; [done|]. split; [right; by exists ev, rv|].
           intros w. rewrite H. trace_norm. done.
        -- do 2 right; left.
           exists (parse_events (arg_tuple_t (func_ h)) fields ++
                     [EvParse (expected_value_t (func_ h) (comp_ h)) s]), args, x.
           split; [done|]. split; [done|].
           intros w. rewrite H. trace_norm. done.
      * right; left.
        exists (parse_events (arg_tuple_t (func_ h)) fields ++
                  [EvParse (expected_value_t (func_ h) (comp_ h)) s]).
        split; [rewrite forallb_app, parse_events_are_parse; done|].
        intros w. by apply RunTest_value_bad_expected with args.
    + right; left.
      destruct (ParseSerializedArgs_fails_frame _ _ Hd) as (evs & Hp & Hev).
      exists evs. split; [done|]. intros w.
      rewrite RunTest_value_row by done. unfold bind. by rewrite Hev.
Qed.

(** ** Counting what ran *)

Lemma invocations_app (w1 w2 : world) :
  invocations (w1 ++ w2) = invocations w1 + invocations w2.
Proof. unfold invocations. by rewrite List.filter_app, length_app. Qed.

Lemma comparisons_app (w1 w2 : world) :
  comparisons (w1 ++ w2) = comparisons w1 + comparisons w2.
Proof. unfold comparisons. by rewrite List.filter_app, length_app. Qed.

Lemma parse_only_counts (evs : world) :
  forallb is_parse evs = true -> invocations evs = 0 /\ comparisons evs = 0.
Proof.
  induction evs as [|ev evs IH]; [done|]. simpl.
  intros [Hev Hall]%andb_true_iff. destruct (IH Hall) as [Hi Hc].
  unfold invocations, comparisons in *. by destruct ev.
Qed.

(** X1. [Invoke] expands the argument tuple over the index sequence of
    its size: the tested function receives every decoded argument,
    once and in positional order, and [Invoke] adds nothing of its own
    to the timed call. *)
Theorem Invoke_forwards_every_argument (h : handler) timer (args : list value) :
  length args = ArgumentCount h ->
  get_each args (make_index_sequence (ArgumentCount h)) = args
  /\ Invoke cost h timer args (make_index_sequence (ArgumentCount h)) =
     InvokeWithTimer cost (func_ h) timer args.
Proof.
  intros Hl. unfold Invoke. rewrite <- Hl, get_each_all. done.
Qed.

(** X2. A row on which [RunTest] yields a [TestOutput] has exactly
    [ArgumentCount()] fields, plus one unless [ExpectedIsVoid()]: the
    width of every header that [ParseSignature] accepts. *)
Theorem RunTest_row_width (h : handler) row (w : world) out w' :
  RunTest cost h row w = Returns out w' ->
  length row = ArgumentCount h + (if ExpectedIsVoid h then 0 else 1)
  /\ forall header w0,
       ParseSignature h header w0 = Returns tt w0 -> length header = length row.
Proof.
  intros H.
  assert (Hlen : length row = ArgumentCount h + (if ExpectedIsVoid h then 0 else 1)).
  { unfold ArgumentCount. destruct (ExpectedIsVoid h) eqn:Hv.
    - destruct (RunTest_void_returns_inv h row w out w' Hv H) as (args & _ & Hd & _).
      destruct (decode_fields_length _ _ _ Hd) as [Hl _]. lia.
    - destruct (RunTest_value_returns_inv h row w out w' Hv H)
        as (fields & e & args & ev & r & -> & Hd & _).
      destruct (decode_fields_length _ _ _ Hd) as [Hl _].
      rewrite length_app. simpl. lia. }
  split; [exact Hlen|]. intros header w0 Hh.
  rewrite ParseSignature_spec in Hh.
  destruct (decide (header = signature_tags h)) as [->|]; [|discriminate].
  rewrite signature_tags_length, Hlen, <- ExpectedIsVoid_is_void. done.
Qed.

(** X3. A row with a wrong number of fields makes [RunTest] throw a
    deserialization error: there is no [TestOutput], parsers at most
    have run by then, and the tested function has not been called. For
    a non-void handler the row has to be non-empty for this to be
    defined. *)
Theorem RunTest_wrong_field_count (h : handler) row (w : world) :
  (ExpectedIsVoid h = false -> row <> []) ->
  length row <> ArgumentCount h + (if ExpectedIsVoid h then 0 else 1) ->
  exists evs,
    RunTest cost h row w =
      Throws (RuntimeException DeserializationError) (w ++ evs)
    /\ forallb is_parse evs = true
    /\ invocations (w ++ evs) = invocations w.
Proof.
  unfold ArgumentCount. intros Hne Hl. exists [].
  rewrite app_nil_r. split; [|done].
  destruct (ExpectedIsVoid h) eqn:Hv.
  - rewrite RunTest_void_row by done. unfold bind.
    rewrite ParseSerializedArgs_count by lia. done.
  - destruct (nonempty_snoc row (Hne eq_refl)) as (fields & e & ->).
    rewrite length_app in Hl. simpl in Hl.
    rewrite RunTest_value_row by done. unfold bind.
    rewrite ParseSerializedArgs_count by lia. done.
Qed.

(** X4. For a tested function that keeps to its return type, the empty
    row is the only row on which [RunTest] has no defined result, and
    it has none there exactly when the handler is non-void or the
    function takes no parameters; on every other row [RunTest] returns
    or throws, whatever the fields hold. *)
Theorem RunTest_undefined_only_on_empty_row (h : handler) row (w : world) :
  returns_a_value h ->
  RunTest cost h row w = Undefined <->
  row = [] /\ (ExpectedIsVoid h = false \/ arg_tuple_t (func_ h) = []).
Proof.
  intros Hty. split.
  - intros H.
    destruct (RunTest_shapes h row)
      as [[_ Hc]|[(evs & _ & Hr)|[(b & a & x & _ & _ & Hr)|(b & a & af & p & e & r & _ & _ & Hr)]]];
      try (rewrite Hr in H; discriminate).
    destruct Hc as [Hc|[Hv (args & Hc)]]; [done|].
    by destruct (Hty Hv args).
  - intros [-> Hc].
    destruct (ExpectedIsVoid h) eqn:Hv.
    + destruct Hc as [Hc|Ha]; [done|].
      rewrite RunTest_void_row by done. by rewrite Ha.
    + unfold RunTest. by rewrite Hv.
Qed.

(** X5. Before the tested function is called, the only exception
    that leaves [RunTest] is the deserialization error, raised after
    parsers only have run: up to the call [RunTest] raises nothing else
    of its own. *)
Theorem RunTest_throws_before_call (h : handler) row (w : world) x w' :
  RunTest cost h row w = Throws x w' ->
  invocations w' = invocations w ->
  x = RuntimeException DeserializationError
  /\ exists evs, w' = w ++ evs /\ forallb is_parse evs = true.
Proof.
  intros H Hi.
  destruct (RunTest_shapes h row)
    as [[Hr _]|[(evs & Hp & Hr)|[(b & a & y & Hp & Hc & Hr)|(b & a & af & p & e & r & _ & _ & Hr)]]];
    rewrite Hr in H; try discriminate; inversion H; subst.
  - split; [done|]. by exists evs.
  - rewrite !invocations_app in Hi.
    destruct (parse_only_counts _ Hp) as [Hb _]. rewrite Hb in Hi.
    unfold invocations in Hi at 2. simpl in Hi. lia.
Qed.

(** X6. On one row [RunTest] calls the tested function at most once,
    and exactly once when it yields a [TestOutput]. The comparator is
    applied at most once, exactly once for a [TestOutput] of a non-void
    handler, and never by a void handler. *)
Theorem RunTest_invokes_at_most_once (h : handler) row (w : world) :
  match RunTest cost h row w with
  | Returns _ w' =>
      invocations w' = invocations w + 1
      /\ comparisons w' = comparisons w + (if ExpectedIsVoid h then 0 else 1)
  | Throws _ w' =>
      invocations w' <= invocations w + 1
      /\ comparisons w' <= comparisons w + 1
      /\ (ExpectedIsVoid h = true -> comparisons w' = comparisons w)
  | Undefined => True
  end.
Proof.
  destruct (RunTest_shapes h row)
    as [[Hr _]|[(evs & Hp & Hr)|[(b & a & y & Hp & Hc & Hr)|(b & a & af & p & e & r & Hp & Hk & Hr)]]];
    rewrite Hr; [done|..];
    rewrite ?invocations_app, ?comparisons_app;
    destruct (parse_only_counts _ Hp) as [Hi Hcmp]; rewrite Hi, Hcmp.
  - repeat split; lia.
  - unfold invocations, comparisons. simpl. repeat split; lia.
  - destruct Hk as [(-> & -> & _)|(ev & rv & -> & -> & _)];
      unfold invocations, comparisons; simpl; lia.
Qed.

(** X9. [RunTest] yields a [TestOutput] only on a row that decoded and
    on which the tested function ended normally. For a non-void
    handler the row is made of fields that decode against the
    parameter types, followed by one field that the parser of the
    expected-value type accepts, the function returned a value on the
    decoded arguments, and the output carries these two values. For a
    void handler all the fields decode against the parameter types and
    the function did not raise on the decoded arguments. *)
Theorem RunTest_returns_only_if (h : handler) row (w : world) out w' :
  RunTest cost h row w = Returns out w' ->
  if ExpectedIsVoid h
  then exists args,
         decode_fields (arg_tuple_t (func_ h)) row = Some args
         /\ forall x, call (func_ h) args <> Raise x
  else exists fields e args ev r,
         row = fields ++ [e]
         /\ decode_fields (arg_tuple_t (func_ h)) fields = Some args
         /\ Parse (expected_value_t (func_ h) (comp_ h)) e = Some ev
         /\ call (func_ h) args = Return r
         /\ expected out = Some ev /\ result out = Some r.
Proof.
  intros H. destruct (ExpectedIsVoid h) eqn:Hv.
  - destruct (RunTest_void_returns_inv h row w out w' Hv H) as (args & Hne & Hd & _).
    exists args. split; [done|]. intros x Hc.
    rewrite (RunTest_void_decoded h row args w Hv Hne Hd) in H.
    cbv zeta in H. rewrite Hc in H. discriminate.
  - destruct (RunTest_value_returns_inv h row w out w' Hv H)
      as (fields & e & args & ev & r & Hrow & Hd & Hp & Hc & -> & _).
    by exists fields, e, args, ev, r.
Qed.

End Properties.

(** * The properties at work on the sample instantiation *)

Local Open Scope string_scope.
Local Open Scope harness_scope.

(** The end-to-end scenarios of the specification. *)

Example sum_row_passes :
  RunTest Sample.sample_cost Sample.sum_handler ["2"; "3"; "5"] [] =
  Returns {| passed := true;
             timer := {| start_ := 9; stop_ := 16 |};
             expected := Some (Sample.VInt 5);
             result := Some (Sample.VInt 5) |}
          [EvParse Sample.T_int "2"; EvParse Sample.T_int "3";
           EvParse Sample.T_int "5"; EvInvoke [Sample.VInt 2; Sample.VInt 3];
           EvCompare (Sample.VInt 5) (Sample.VInt 5)].
Proof. reflexivity. Qed.

Example sum_row_fails_and_the_suite_goes_on :
  exists o1 o2 w',
    run_rows Sample.sample_cost Sample.sum_handler
      [["2"; "3"; "6"]; ["2"; "3"; "5"]] [] = Returns [Judged o1; Judged o2] w'
    /\ passed o1 = false
    /\ expected o1 = Some (Sample.VInt 6) /\ result o1 = Some (Sample.VInt 5)
    /\ passed o2 = true.
Proof. eexists _, _, _. split; [reflexivity|]. repeat split. Qed.

Example void_row_passes_without_values :
  RunTest Sample.sample_cost Sample.record_handler ["7"] [] =
  Returns {| passed := true;
             timer := {| start_ := 3; stop_ := 10 |};
             expected := None;
             result := None |}
          [EvParse Sample.T_int "7"; EvInvoke [Sample.VInt 7]].
Proof. reflexivity. Qed.

Example unparseable_row_aborts_the_suite :
  run_rows Sample.sample_cost Sample.record_handler [["abc"]; ["7"]] [] =
  Throws (RuntimeException DeserializationError) [EvParse Sample.T_int "abc"].
Proof. reflexivity. Qed.

Example header_of_sum :
  ParseSignature Sample.sum_handler ["int"; "int"; "int"] [] = Returns tt []
  /\ ParseSignature Sample.sum_handler ["int"; "int"] [] =
     Throws (RuntimeException SignatureMismatch) [].
Proof. split; reflexivity. Qed.

(** C1 as stated fails. The comparator [same_text] takes its expected
    value as a string while [sum] returns an int: the header that
    carries the declared parameter and return types of [sum] is
    rejected. *)
Lemma ParseSignature_declared_tags_counterexample :
  ~ (ParseSignature Sample.sum_text_handler ["int"; "int"; "int"] [] = Returns tt []
     <-> ["int"; "int"; "int"] = declared_tags (func_ Sample.sum_text_handler)).
Proof.
  intros [_ H]. specialize (H eq_refl). vm_compute in H. discriminate H.
Qed.

Lemma ParseSignature_accepts_exactly_signature_tags_witness :
  ParseSignature Sample.sum_text_handler ["int"; "int"; "string"] [] = Returns tt []
  /\ ParseSignature Sample.sum_text_handler ["int"; "int"; "int"] [] =
     Throws (RuntimeException SignatureMismatch) []
  /\ ParseSignature Sample.sum_text_handler ["int"; "int"] [] =
     Throws (RuntimeException SignatureMismatch) []
  /\ signature_tags Sample.sum_handler = declared_tags Sample.sum.
Proof.
  destruct (ParseSignature_accepts_exactly_signature_tags Sample.sum_text_handler [])
    as (Hiff & _ & Hmut & Hlen & _).
  destruct (ParseSignature_accepts_exactly_signature_tags Sample.sum_handler [])
    as (_ & _ & _ & _ & Hdef).
  split; [|split; [|split]].
  - apply Hiff. reflexivity.
  - apply (Hmut 2 "int"); [vm_compute; lia | discriminate].
  - apply Hlen. discriminate.
  - apply Hdef; reflexivity.
Defined.


Lemma expected_void_iff_return_void_witness :
  instantiate Sample.tick Sample.same_text = None
  /\ ExpectedIsVoid Sample.record_handler = true
  /\ ExpectedIsVoid Sample.sum_text_handler = false.
Proof.
  destruct (@expected_void_iff_return_void Sample.cpp_type Sample.cpp_value _ _)
    as (_ & Htag & Hnone & _).
  split; [|split].
  - apply Hnone. intros [_ H]. specialize (H eq_refl). discriminate H.
  - rewrite Htag. reflexivity.
  - rewrite Htag. reflexivity.
Defined.

Lemma RunTest_splits_row_witness :
  RunTest Sample.sample_cost Sample.sum_handler ["2"; "3"; "5"] [] =
    (args <~ ParseSerializedArgs [Sample.T_int; Sample.T_int]
               (cbegin ["2"; "3"]) (cend ["2"; "3"]) ;;
     ParseExpectedAndInvokeImpl_Value Sample.sample_cost Sample.sum_handler "5" args) []
  /\ RunTest Sample.sample_cost Sample.sum_handler [] [] = Undefined
  /\ RunTest Sample.sample_cost Sample.record_handler ["7"] [] =
    (args <~ ParseSerializedArgs [Sample.T_int] (cbegin ["7"]) (cend ["7"]) ;;
     ParseExpectedAndInvokeImpl_Void Sample.sample_cost Sample.record_handler "7" args) [].
Proof.
  destruct (RunTest_splits_row Sample.sample_cost Sample.sum_handler []) as [Hval _].
  destruct (RunTest_splits_row Sample.sample_cost Sample.record_handler []) as [_ Hvoid].
  split; [|split].
  - exact (Hval ltac:(discriminate) ["2"; "3"; "5"]).
  - exact (Hval ltac:(discriminate) []).
  - exact (proj2 (Hvoid eq_refl ["7"])).
Defined.

Lemma TestOutput_optionals_witness :
  (forall out w',
     RunTest Sample.sample_cost Sample.record_handler ["7"] [] = Returns out w' ->
     expected out = None /\ result out = None)
  /\ exists out w',
       RunTest Sample.sample_cost Sample.sum_handler ["2"; "3"; "5"] [] = Returns out w'
       /\ expected out = Some (Sample.VInt 5) /\ result out = Some (Sample.VInt 5).
Proof.
  split.
  - destruct (TestOutput_optionals Sample.sample_cost Sample.record_handler [])
      as (Hvoid & _ & _).
    exact (Hvoid eq_refl ["7"]).
  - destruct (TestOutput_optionals Sample.sample_cost Sample.sum_handler [])
      as (_ & _ & Hval).
    exact (Hval ltac:(discriminate) ["2"; "3"] "5" [Sample.VInt 2; Sample.VInt 3]
             (Sample.VInt 5) (Sample.VInt 5) eq_refl eq_refl eq_refl).
Defined.

Lemma passed_is_comparator_verdict_witness :
  (exists out w',
     RunTest Sample.sample_cost Sample.sum_handler ["2"; "3"; "6"] [] = Returns out w'
     /\ passed out = false)
  /\ (exists out w',
        RunTest Sample.sample_cost Sample.sum_text_handler ["2"; "3"; "5"] [] =
          Returns out w'
        /\ passed out = true)
  /\ exists out w',
       RunTest Sample.sample_cost Sample.record_handler ["7"] [] = Returns out w'
       /\ passed out = true.
Proof.
  split; [|split].
  - destruct (passed_is_comparator_verdict Sample.sample_cost Sample.sum_handler [])
      as (Hval & _ & _ & _).
    exact (Hval ltac:(discriminate) ["2"; "3"] "6" [Sample.VInt 2; Sample.VInt 3]
             (Sample.VInt 6) (Sample.VInt 5) eq_refl eq_refl eq_refl).
  - destruct (passed_is_comparator_verdict Sample.sample_cost Sample.sum_text_handler [])
      as (Hval & _ & _ & _).
    exact (Hval ltac:(discriminate) ["2"; "3"] "5" [Sample.VInt 2; Sample.VInt 3]
             (Sample.VString "5") (Sample.VInt 5) eq_refl eq_refl eq_refl).
  - destruct (passed_is_comparator_verdict Sample.sample_cost Sample.record_handler [])
      as (_ & _ & _ & Hvoid).
    exact (Hvoid eq_refl ["7"] [Sample.VInt 7] ltac:(discriminate) eq_refl
             ltac:(discriminate)).
Defined.

Lemma unparseable_argument_fails_row_witness :
  arg_tuple_t (func_ Sample.sum_handler) !! 1 = Some Sample.T_int
  /\ ["2"; "x3"; "5"] !! 1 = Some "x3"
  /\ 1 < length ["2"; "x3"; "5"] - (if ExpectedIsVoid Sample.sum_handler then 0 else 1)
  /\ Parse Sample.T_int "x3" = None
  /\ exists evs,
       RunTest Sample.sample_cost Sample.sum_handler ["2"; "x3"; "5"] [] =
         Throws (RuntimeException DeserializationError) evs
       /\ forallb is_parse evs = true
       /\ existsb is_invoke evs = false
       /\ forall rest,
            run_rows Sample.sample_cost Sample.sum_handler (["2"; "x3"; "5"] :: rest) [] =
              Throws (RuntimeException DeserializationError) evs.
Proof.
  assert (H3 : 1 < length ["2"; "x3"; "5"] -
                   (if ExpectedIsVoid Sample.sum_handler then 0 else 1))
    by (vm_compute; lia).
  repeat (split; [first [reflexivity | exact H3]|]).
  exact (unparseable_argument_fails_row Sample.sample_cost Sample.sum_handler
           ["2"; "x3"; "5"] [] 1 Sample.T_int "x3" eq_refl eq_refl H3 eq_refl).
Defined.

Lemma tested_function_exceptions_witness :
  RunTest Sample.sample_cost Sample.checked_handler ["0"; "0"] [] =
    Throws (UnknownException "division by zero")
      [EvParse Sample.T_int "0"; EvParse Sample.T_int "0"; EvInvoke [Sample.VInt 0]]
  /\ (forall rest,
        run_rows Sample.sample_cost Sample.checked_handler (["0"; "0"] :: rest) [] =
        Throws (UnknownException "division by zero")
          [EvParse Sample.T_int "0"; EvParse Sample.T_int "0"; EvInvoke [Sample.VInt 0]])
  /\ forall rest,
       run_rows Sample.sample_cost Sample.checked_handler (["-1"; "0"] :: rest) [] =
       (rs <~ run_rows Sample.sample_cost Sample.checked_handler rest ;;
        ret (FailedByException :: rs))
         [EvParse Sample.T_int "-1"; EvParse Sample.T_int "0";
          EvInvoke [Sample.VInt (-1)]].
Proof.
  destruct (tested_function_exceptions Sample.sample_cost Sample.checked_handler [])
    as (Hval & _ & Hfail & Hfatal).
  assert (H0 : RunTest Sample.sample_cost Sample.checked_handler ["0"; "0"] [] =
    Throws (UnknownException "division by zero")
      [EvParse Sample.T_int "0"; EvParse Sample.T_int "0"; EvInvoke [Sample.VInt 0]]).
  { exact (Hval ltac:(discriminate) ["0"] "0" [Sample.VInt 0] (Sample.VInt 0)
             (UnknownException "division by zero") eq_refl eq_refl eq_refl). }
  split; [exact H0|]. split.
  - intros rest. apply Hfatal; [exact H0 | discriminate].
  - intros rest. apply Hfail.
    exact (Hval ltac:(discriminate) ["-1"] "0" [Sample.VInt (-1)] (Sample.VInt 0)
             TestFailureException eq_refl eq_refl eq_refl).
Defined.

Lemma elapsed_covers_only_the_invocation_witness :
  let out := {| passed := true;
                timer := {| start_ := 9; stop_ := 16 |};
                expected := Some (Sample.VInt 5);
                result := Some (Sample.VInt 5) |} in
  let w' := [EvParse Sample.T_int "2"; EvParse Sample.T_int "3";
             EvParse Sample.T_int "5"; EvInvoke [Sample.VInt 2; Sample.VInt 3];
             EvCompare (Sample.VInt 5) (Sample.VInt 5)] in
  RunTest Sample.sample_cost Sample.sum_handler ["2"; "3"; "5"] [] = Returns out w'
  /\ exists args,
       elapsed (timer out) = Z.of_N (Sample.sample_cost (EvInvoke args))
       /\ (0 <= elapsed (timer out))%Z.
Proof.
  intros out w'.
  assert (H : RunTest Sample.sample_cost Sample.sum_handler ["2"; "3"; "5"] [] =
              Returns out w') by reflexivity.
  split; [exact H|].
  destruct (elapsed_covers_only_the_invocation Sample.sample_cost Sample.sum_handler
              ["2"; "3"; "5"] [] out w' H)
    as (before & args & after & _ & _ & _ & _ & _ & _ & Hel & Hpos).
  exists args. split; [exact Hel | exact Hpos].
Defined.

Lemma RunTest_requires_nonempty_row_witness :
  ParseSignature Sample.tick_handler [] [] = Returns tt []
  /\ RunTest Sample.sample_cost Sample.tick_handler [] [] = Undefined
  /\ RunTest Sample.sample_cost Sample.tick_handler ["7"] [] =
     Throws (RuntimeException DeserializationError) [].
Proof.
  destruct (RunTest_requires_nonempty_row Sample.sample_cost Sample.tick_handler [])
    as (_ & H).
  destruct (H eq_refl eq_refl) as (Hsig & _ & _ & Hrun & Hrest).
  split; [exact Hsig|]. split; [exact Hrun|].
  apply Hrest. discriminate.
Defined.

(** * The further properties on the sample instantiation *)

Lemma Invoke_forwards_every_argument_witness :
  length [Sample.VInt 2; Sample.VInt 3] = ArgumentCount Sample.sum_handler
  /\ get_each [Sample.VInt 2; Sample.VInt 3]
       (make_index_sequence (ArgumentCount Sample.sum_handler)) =
     [Sample.VInt 2; Sample.VInt 3]
  /\ Invoke Sample.sample_cost Sample.sum_handler TestTimer_new
       [Sample.VInt 2; Sample.VInt 3]
       (make_index_sequence (ArgumentCount Sample.sum_handler)) =
     InvokeWithTimer Sample.sample_cost (func_ Sample.sum_handler) TestTimer_new
       [Sample.VInt 2; Sample.VInt 3].
Proof.
  split; [reflexivity|].
  exact (Invoke_forwards_every_argument Sample.sample_cost Sample.sum_handler
           TestTimer_new [Sample.VInt 2; Sample.VInt 3] eq_refl).
Defined.

Lemma RunTest_row_width_witness :
  let out := {| passed := true;
                timer := {| start_ := 9; stop_ := 16 |};
                expected := Some (Sample.VInt 5);
                result := Some (Sample.VInt 5) |} in
  let w' := [EvParse Sample.T_int "2"; EvParse Sample.T_int "3";
             EvParse Sample.T_int "5"; EvInvoke [Sample.VInt 2; Sample.VInt 3];
             EvCompare (Sample.VInt 5) (Sample.VInt 5)] in
  RunTest Sample.sample_cost Sample.sum_handler ["2"; "3"; "5"] [] = Returns out w'
  /\ length ["2"; "3"; "5"] =
     ArgumentCount Sample.sum_handler +
     (if ExpectedIsVoid Sample.sum_handler then 0 else 1)
  /\ forall header w0,
       ParseSignature Sample.sum_handler header w0 = Returns tt w0 ->
       length header = length ["2"; "3"; "5"].
Proof.
  intros out w'.
  assert (H : RunTest Sample.sample_cost Sample.sum_handler ["2"; "3"; "5"] [] =
              Returns out w') by reflexivity.
  split; [exact H|].
  exact (RunTest_row_width Sample.sample_cost Sample.sum_handler
           ["2"; "3"; "5"] [] out w' H).
Defined.

Lemma RunTest_wrong_field_count_witness :
  (ExpectedIsVoid Sample.sum_handler = false -> ["2"; "5"] <> [])
  /\ length ["2"; "5"] <>
     ArgumentCount Sample.sum_handler +
     (if ExpectedIsVoid Sample.sum_handler then 0 else 1)
  /\ exists evs : Sample.trace,
       RunTest Sample.sample_cost Sample.sum_handler ["2"; "5"] [] =
         Throws (RuntimeException DeserializationError) evs
       /\ forallb is_parse evs = true
       /\ invocations evs = invocations ([] : Sample.trace).
Proof.
  assert (H1 : ExpectedIsVoid Sample.sum_handler = false -> ["2"; "5"] <> [])
    by discriminate.
  assert (H2 : length ["2"; "5"] <>
               ArgumentCount Sample.sum_handler +
               (if ExpectedIsVoid Sample.sum_handler then 0 else 1))
    by (vm_compute; lia).
  split; [exact H1|]. split; [exact H2|].
  exact (RunTest_wrong_field_count Sample.sample_cost Sample.sum_handler
           ["2"; "5"] [] H1 H2).
Defined.

Lemma RunTest_undefined_only_on_empty_row_witness :
  returns_a_value Sample.sum_handler
  /\ RunTest Sample.sample_cost Sample.sum_handler [] [] = Undefined
  /\ RunTest Sample.sample_cost Sample.sum_handler ["x"] [] <> Undefined.
Proof.
  assert (Hty : returns_a_value Sample.sum_handler).
  { intros _ args H. simpl in H.
    repeat match type of H with
           | context [match ?x with _ => _ end] => destruct x; try discriminate H
           end. }
  split; [exact Hty|]. split.
  - apply (RunTest_undefined_only_on_empty_row Sample.sample_cost
             Sample.sum_handler [] [] Hty).
    split; [reflexivity | left; reflexivity].
  - intros H.
    apply (RunTest_undefined_only_on_empty_row Sample.sample_cost
             Sample.sum_handler ["x"] [] Hty) in H.
    destruct H as [H _]. discriminate H.
Defined.

Lemma RunTest_throws_before_call_witness :
  RunTest Sample.sample_cost Sample.sum_handler ["2"; "3"; "five"] [] =
    Throws (RuntimeException DeserializationError)
      [EvParse Sample.T_int "2"; EvParse Sample.T_int "3"; EvParse Sample.T_int "five"]
  /\ invocations
       ([EvParse Sample.T_int "2"; EvParse Sample.T_int "3";
         EvParse Sample.T_int "five"] : Sample.trace) =
     invocations ([] : Sample.trace)
  /\ exists evs : Sample.trace,
       [EvParse Sample.T_int "2"; EvParse Sample.T_int "3";
        EvParse Sample.T_int "five"] = evs
       /\ forallb is_parse evs = true.
Proof.
  assert (H : RunTest Sample.sample_cost Sample.sum_handler ["2"; "3"; "five"] [] =
    Throws (RuntimeException DeserializationError)
      [EvParse Sample.T_int "2"; EvParse Sample.T_int "3"; EvParse Sample.T_int "five"])
    by reflexivity.
  assert (Hi : invocations
       ([EvParse Sample.T_int "2"; EvParse Sample.T_int "3";
         EvParse Sample.T_int "five"] : Sample.trace) =
     invocations ([] : Sample.trace)) by reflexivity.
  split; [exact H|]. split; [exact Hi|].
  exact (proj2 (RunTest_throws_before_call Sample.sample_cost Sample.sum_handler
                  ["2"; "3"; "five"] [] _ _ H Hi)).
Defined.

Lemma RunTest_invokes_at_most_once_witness :
  (invocations
     [EvParse Sample.T_int "2"; EvParse Sample.T_int "3"; EvParse Sample.T_int "5";
      EvInvoke [Sample.VInt 2; Sample.VInt 3];
      EvCompare (Sample.VInt 5) (Sample.VInt 5)] = invocations ([] : Sample.trace) + 1
   /\ comparisons
        [EvParse Sample.T_int "2"; EvParse Sample.T_int "3"; EvParse Sample.T_int "5";
         EvInvoke [Sample.VInt 2; Sample.VInt 3];
         EvCompare (Sample.VInt 5) (Sample.VInt 5)] =
      comparisons ([] : Sample.trace) + (if ExpectedIsVoid Sample.sum_handler then 0 else 1))
  /\ (invocations ([EvParse Sample.T_int "abc"] : Sample.trace) <=
        invocations ([] : Sample.trace) + 1
      /\ comparisons ([EvParse Sample.T_int "abc"] : Sample.trace) <=
         comparisons ([] : Sample.trace) + 1
      /\ (ExpectedIsVoid Sample.record_handler = true ->
          comparisons ([EvParse Sample.T_int "abc"] : Sample.trace) =
          comparisons ([] : Sample.trace))).
Proof.
  split.
  - exact (RunTest_invokes_at_most_once Sample.sample_cost Sample.sum_handler
             ["2"; "3"; "5"] []).
  - exact (RunTest_invokes_at_most_once Sample.sample_cost Sample.record_handler
             ["abc"] []).
Defined.

Lemma RunTest_returns_only_if_witness :
  let out := {| passed := false;
                timer := {| start_ := 9; stop_ := 16 |};
                expected := Some (Sample.VInt 6);
                result := Some (Sample.VInt 5) |} in
  let w' := [EvParse Sample.T_int "2"; EvParse Sample.T_int "3";
             EvParse Sample.T_int "6"; EvInvoke [Sample.VInt 2; Sample.VInt 3];
             EvCompare (Sample.VInt 6) (Sample.VInt 5)] in
  RunTest Sample.sample_cost Sample.sum_handler ["2"; "3"; "6"] [] = Returns out w'
  /\ exists fields e args ev r,
       ["2"; "3"; "6"] = (fields ++ [e])%list
       /\ decode_fields (arg_tuple_t (func_ Sample.sum_handler)) fields = Some args
       /\ Parse (expected_value_t (func_ Sample.sum_handler)
                   (comp_ Sample.sum_handler)) e = Some ev
       /\ call (func_ Sample.sum_handler) args = Return r
       /\ expected out = Some ev /\ result out = Some r.
Proof.
  intros out w'.
  assert (H : RunTest Sample.sample_cost Sample.sum_handler ["2"; "3"; "6"] [] =
              Returns out w') by reflexivity.
  split; [exact H|].
  exact (RunTest_returns_only_if Sample.sample_cost Sample.sum_handler
           ["2"; "3"; "6"] [] out w' H).
Defined.
